(** * Hotel reservation system: a shallow embedding of [hotel_system.py]

    The program keeps three collections (hotels, customers, reservations) in
    three JSON files.  Every operation of [HotelSystem] reloads the files it
    needs, works on the in-memory lists and rewrites whole files.

    The embedding follows that shape:
    - a stored record is a Python [dict] with string keys: a [gmap string value]
      (Python compares dicts by content, which is equality of [gmap]s);
    - field values are the JSON scalars the program reads and writes:
      integers (unbounded, hence [Z]), strings and [null];
    - Python exceptions are explicit: a computation yields [Ok x] or
      [Raise e];
    - the file system is threaded through a small state-and-exception monad
      [M]; the monad also keeps the list of [save_data] calls made so far;
    - [print] is not modelled: messages on standard output are no part of the
      state. *)

From stdpp Require Import base option list gmap strings.

Local Open Scope string_scope.
Local Open Scope Z_scope.
Local Open Scope list_scope.

(** ** Python values, exceptions and dictionaries *)

Inductive value :=
| VInt (z : Z)
| VStr (s : string)
| VNone.

#[global] Instance value_eq_dec : EqDecision value.
Proof. solve_decision. Defined.

(** The exception classes the program can meet.  [JSONDecodeError] and
    [UnicodeDecodeError] are both subclasses of [ValueError], and neither is a
    subclass of the other nor of [OSError]. *)
Inductive exn :=
| OSError
| JSONDecodeError
| UnicodeDecodeError
| KeyError (key : string)
| TypeError
| ValueError.

#[global] Instance exn_eq_dec : EqDecision exn.
Proof. solve_decision. Defined.

Inductive result (A : Type) :=
| Ok (a : A)
| Raise (e : exn).
Arguments Ok {A} a.
Arguments Raise {A} e.

#[global] Instance result_ret : MRet result := λ A a, Ok a.
#[global] Instance result_bind : MBind result := λ A B f m,
  match m with
  | Ok a => f a
  | Raise e => Raise e
  end.

Abbreviation record := (gmap string value).

(** [d[key]] *)
Definition getitem (d : record) (key : string) : result value :=
  match d !! key with
  | Some v => Ok v
  | None => Raise (KeyError key)
  end.

(** [a == b] on scalars: values of different types are never equal. *)
Definition py_eq (a b : value) : bool := bool_decide (a = b).

(** [a <= n] for an integer literal [n]: ordering a string or [None] against
    an integer raises [TypeError]. *)
Definition py_le (a : value) (n : Z) : result bool :=
  match a with
  | VInt z => Ok (z <=? n)
  | _ => Raise TypeError
  end.

(** [a + n] and [a - n] for an integer literal [n]. *)
Definition py_add (a : value) (n : Z) : result value :=
  match a with
  | VInt z => Ok (VInt (z + n))
  | _ => Raise TypeError
  end.

Definition py_sub (a : value) (n : Z) : result value :=
  match a with
  | VInt z => Ok (VInt (z - n))
  | _ => Raise TypeError
  end.

(** [l.remove(x)]: drops the first item equal to [x]; [ValueError] when there
    is none. *)
Fixpoint py_remove (x : record) (l : list record) : result (list record) :=
  match l with
  | [] => Raise ValueError
  | y :: l' =>
      if decide (y = x) then Ok l'
      else l'' ← py_remove x l'; Ok (y :: l'')
  end.

(** ** The files *)

(** What reading a file that exists leads to. *)
Inductive file :=
| Unreadable                  (* [open] or [read] raises [OSError] *)
| Undecodable                 (* the bytes are not UTF-8 text *)
| Malformed                   (* the text is not JSON *)
| Json (data : list record).  (* a JSON array of flat objects *)

Record world := World {
  files : gmap string file;
  readonly : gset string;                 (* paths that cannot be opened for writing *)
  saved : list (string * list record)     (* the [save_data] calls so far, oldest first *)
}.

Definition M (A : Type) : Type := world → result A * world.

#[global] Instance M_ret : MRet M := λ A a w, (Ok a, w).
#[global] Instance M_bind : MBind M := λ A B f m w,
  match m w with
  | (Ok a, w') => f a w'
  | (Raise e, w') => (Raise e, w')
  end.

(** A pure computation that may raise, run inside [M]. *)
Definition lift {A} (r : result A) : M A := λ w, (r, w).

(** [with open(filename, "r", encoding="utf-8") as file: return json.load(file)] *)
Definition read_json (filename : string) : M (list record) := λ w,
  match files w !! filename with
  | None => (Raise OSError, w)
  | Some Unreadable => (Raise OSError, w)
  | Some Undecodable => (Raise UnicodeDecodeError, w)
  | Some Malformed => (Raise JSONDecodeError, w)
  | Some (Json data) => (Ok data, w)
  end.

(** [os.path.exists(filename)] *)
Definition path_exists (filename : string) : M bool := λ w,
  (Ok (bool_decide (is_Some (files w !! filename))), w).

Definition load_data (filename : string) : M (list record) :=
  present ← path_exists filename;
  if negb present then mret []
  else λ w,
    match read_json filename w with
    | (Raise JSONDecodeError, w') => (Ok [], w')
    | (Raise OSError, w') => (Ok [], w')
    | other => other
    end.

(** [with open(filename, "w", encoding="utf-8") as file: json.dump(data, file, indent=4)]

    The values of the model are all JSON scalars, so [json.dump] itself cannot
    fail; the write fails, with [OSError], when the path cannot be opened for
    writing, and then the file is as it was.  A path that can be written is
    taken to be readable afterwards: a file that accepts writes and still
    refuses reads is outside the model. *)
Definition write_json (filename : string) (data : list record) : M unit := λ w,
  if decide (filename ∈ readonly w) then (Raise OSError, w)
  else (Ok (), World (<[filename := Json data]> (files w)) (readonly w) (saved w)).

Definition save_data (filename : string) (data : list record) : M unit := λ w,
  let w := World (files w) (readonly w) (saved w ++ [(filename, data)]) in
  match write_json filename data w with
  | (Raise OSError, w') => (Ok (), w')
  | other => other
  end.

(** ** Entity models *)

Module Hotel.
Record t := {
  hotel_id : Z;
  name : string;
  location : string;
  total_rooms : Z;
  available_rooms : Z
}.

(** [Hotel.__init__] *)
Definition init (hotel_id : Z) (name location : string) (total_rooms : Z) : t :=
  {| hotel_id := hotel_id;
     name := name;
     location := location;
     total_rooms := total_rooms;
     available_rooms := total_rooms |}.

Definition to_dict (self : t) : record :=
  <["available_rooms" := VInt (available_rooms self)]>
  (<["total_rooms" := VInt (total_rooms self)]>
  (<["location" := VStr (location self)]>
  (<["name" := VStr (name self)]>
  (<["hotel_id" := VInt (hotel_id self)]> ∅)))).
End Hotel.

Module Customer.
Record t := {
  customer_id : Z;
  name : string;
  email : string;
  phone : string
}.

Definition init (customer_id : Z) (name email phone : string) : t :=
  {| customer_id := customer_id; name := name; email := email; phone := phone |}.

Definition to_dict (self : t) : record :=
  <["phone" := VStr (phone self)]>
  (<["email" := VStr (email self)]>
  (<["name" := VStr (name self)]>
  (<["customer_id" := VInt (customer_id self)]> ∅))).
End Customer.

Module Reservation.
Record t := {
  reservation_id : Z;
  customer_id : Z;
  hotel_id : Z;
  date : string
}.

(** [now] stands for [str(datetime.now())], read when the object is built. *)
Definition init (now : string) (reservation_id customer_id hotel_id : Z) : t :=
  {| reservation_id := reservation_id;
     customer_id := customer_id;
     hotel_id := hotel_id;
     date := now |}.

Definition to_dict (self : t) : record :=
  <["date" := VStr (date self)]>
  (<["hotel_id" := VInt (hotel_id self)]>
  (<["customer_id" := VInt (customer_id self)]>
  (<["reservation_id" := VInt (reservation_id self)]> ∅))).
End Reservation.

(** ** The loops of [HotelSystem] over loaded collections *)

(** [any(r[key] == x for r in l)] *)
Fixpoint any_eq (key : string) (x : value) (l : list record) : result bool :=
  match l with
  | [] => Ok false
  | r :: l' =>
      v ← getitem r key;
      if py_eq v x then Ok true else any_eq key x l'
  end.

(** [[r for r in l if r[key] != x]] *)
Fixpoint without (key : string) (x : value) (l : list record) : result (list record) :=
  match l with
  | [] => Ok []
  | r :: l' =>
      v ← getitem r key;
      rest ← without key x l';
      Ok (if py_eq v x then rest else r :: rest)
  end.

(** [for key, value in kwargs.items(): if key in d: d[key] = value] *)
Definition update_fields (kwargs : list (string * value)) (d : record) : record :=
  foldl (λ d kv, if decide (is_Some (d !! kv.1)) then <[kv.1 := kv.2]> d else d)
        d kwargs.

(** The loop of [modify_hotel] and [modify_customer]: the first record whose
    [key] equals [x] is updated in place and the loop returns; [None] when the
    loop runs to its end. *)
Fixpoint modify_first (key : string) (x : value) (kwargs : list (string * value))
    (l : list record) : result (option (list record)) :=
  match l with
  | [] => Ok None
  | r :: l' =>
      v ← getitem r key;
      if py_eq v x then Ok (Some (update_fields kwargs r :: l'))
      else
        found ← modify_first key x kwargs l';
        Ok (match found with
            | Some l'' => Some (r :: l'')
            | None => None
            end)
  end.

(** The hotel loop of [create_reservation]. *)
Inductive booking :=
| NoSuchHotel
| NoRooms
| Booked (hotels : list record).

Fixpoint book_room (hotel_id : Z) (hotels : list record) : result booking :=
  match hotels with
  | [] => Ok NoSuchHotel
  | hotel :: rest =>
      v ← getitem hotel "hotel_id";
      if py_eq v (VInt hotel_id) then
        a ← getitem hotel "available_rooms";
        full ← py_le a 0;
        if (full : bool) then Ok NoRooms
        else
          a ← getitem hotel "available_rooms";
          a' ← py_sub a 1;
          Ok (Booked (<["available_rooms" := a']> hotel :: rest))
      else
        b ← book_room hotel_id rest;
        Ok (match b with
            | Booked rest' => Booked (hotel :: rest')
            | other => other
            end)
  end.

(** The outer loop of [cancel_reservation]: the first reservation with the
    given id. *)
Fixpoint find_first (key : string) (x : value) (l : list record) : result (option record) :=
  match l with
  | [] => Ok None
  | r :: l' =>
      v ← getitem r key;
      if py_eq v x then Ok (Some r) else find_first key x l'
  end.

(** The inner loop of [cancel_reservation]. *)
Fixpoint release_rooms (reservation : record) (hotels : list record) : result (list record) :=
  match hotels with
  | [] => Ok []
  | hotel :: rest =>
      a ← getitem hotel "hotel_id";
      b ← getitem reservation "hotel_id";
      hotel' ← (if py_eq a b then
                  n ← getitem hotel "available_rooms";
                  n' ← py_add n 1;
                  Ok (<["available_rooms" := n']> hotel)
                else Ok hotel);
      rest' ← release_rooms reservation rest;
      Ok (hotel' :: rest')
  end.

(** ** The operations *)

Module HotelSystem.
Definition hotels_file : string := "hotels.json".
Definition customers_file : string := "customers.json".
Definition reservations_file : string := "reservations.json".

Definition create_hotel (hotel_id : Z) (name location : string) (total_rooms : Z) : M bool :=
  hotels ← load_data hotels_file;
  dup ← lift (any_eq "hotel_id" (VInt hotel_id) hotels);
  if (dup : bool) then mret false
  else
    let hotel := Hotel.init hotel_id name location total_rooms in
    let hotels := hotels ++ [Hotel.to_dict hotel] in
    save_data hotels_file hotels;;
    mret true.

Definition delete_hotel (hotel_id : Z) : M bool :=
  hotels ← load_data hotels_file;
  new_hotels ← lift (without "hotel_id" (VInt hotel_id) hotels);
  if decide (length new_hotels = length hotels) then mret false
  else
    save_data hotels_file new_hotels;;
    mret true.

Definition display_hotels : M (list record) := load_data hotels_file.

(** The body of [modify_hotel], run on the dictionary [kwargs] of the call.
    Python binds the names [self] and [hotel_id] to the method's own
    parameters: a call that passes one of them as a keyword is refused before
    the body runs (see [call_modify_hotel]), so the dictionary the body
    receives holds neither. *)
Definition modify_hotel (hotel_id : Z) (kwargs : list (string * value)) : M bool :=
  hotels ← load_data hotels_file;
  found ← lift (modify_first "hotel_id" (VInt hotel_id) kwargs hotels);
  match found with
  | Some hotels => save_data hotels_file hotels;; mret true
  | None => mret false
  end.

Definition create_customer (customer_id : Z) (name email phone : string) : M bool :=
  customers ← load_data customers_file;
  dup ← lift (any_eq "customer_id" (VInt customer_id) customers);
  if (dup : bool) then mret false
  else
    let customer := Customer.init customer_id name email phone in
    let customers := customers ++ [Customer.to_dict customer] in
    save_data customers_file customers;;
    mret true.

Definition delete_customer (customer_id : Z) : M bool :=
  customers ← load_data customers_file;
  new_customers ← lift (without "customer_id" (VInt customer_id) customers);
  if decide (length new_customers = length customers) then mret false
  else
    save_data customers_file new_customers;;
    mret true.

Definition display_customers : M (list record) := load_data customers_file.

(** The body of [modify_customer]; as for [modify_hotel], the names [self] and
    [customer_id] never reach [kwargs] (see [call_modify_customer]). *)
Definition modify_customer (customer_id : Z) (kwargs : list (string * value)) : M bool :=
  customers ← load_data customers_file;
  found ← lift (modify_first "customer_id" (VInt customer_id) kwargs customers);
  match found with
  | Some customers => save_data customers_file customers;; mret true
  | None => mret false
  end.

Definition create_reservation (now : string) (reservation_id customer_id hotel_id : Z)
    : M bool :=
  reservations ← load_data reservations_file;
  hotels ← load_data hotels_file;
  customers ← load_data customers_file;
  dup ← lift (any_eq "reservation_id" (VInt reservation_id) reservations);
  if (dup : bool) then mret false
  else
    known ← lift (any_eq "customer_id" (VInt customer_id) customers);
    if negb known then mret false
    else
      b ← lift (book_room hotel_id hotels);
      match b with
      | NoSuchHotel => mret false
      | NoRooms => mret false
      | Booked hotels =>
          let reservation := Reservation.init now reservation_id customer_id hotel_id in
          let reservations := reservations ++ [Reservation.to_dict reservation] in
          save_data hotels_file hotels;;
          save_data reservations_file reservations;;
          mret true
      end.

Definition cancel_reservation (reservation_id : Z) : M bool :=
  reservations ← load_data reservations_file;
  hotels ← load_data hotels_file;
  found ← lift (find_first "reservation_id" (VInt reservation_id) reservations);
  match found with
  | Some reservation =>
      hotels ← lift (release_rooms reservation hotels);
      reservations ← lift (py_remove reservation reservations);
      save_data hotels_file hotels;;
      save_data reservations_file reservations;;
      mret true
  | None => mret false
  end.

Definition display_reservations : M (list record) := load_data reservations_file.
End HotelSystem.
Import HotelSystem.

(** ** Observing the store *)

(** What [load_data] hands to its caller, and the world a [save_data] call
    leaves behind. *)
Definition loaded (filename : string) (w : world) : result (list record) :=
  (load_data filename w).1.

Definition store (filename : string) (data : list record) (w : world) : world :=
  (save_data filename data w).2.

(** The collection as a [display_*] call shows it (nothing when the call
    raises). *)
Definition stored (filename : string) (w : world) : list record :=
  match loaded filename w with
  | Ok l => l
  | Raise _ => []
  end.

(** ** The data model of the collections *)

(** Every record of the collection carries the field [key]. *)
Definition keyed (key : string) (l : list record) : Prop :=
  Forall (λ r : record, is_Some (r !! key)) l.

(** The values of the field [key], record by record. *)
Definition ids (key : string) (l : list record) : list (option value) :=
  (λ r : record, r !! key) <$> l.

(** The field [key] of the record is the integer [id]. *)
Definition has_id (key : string) (id : Z) (r : record) : Prop :=
  r !! key = Some (VInt id).

#[global] Instance keyed_dec key l : Decision (keyed key l).
Proof. unfold keyed. apply _. Defined.

#[global] Instance has_id_dec key id r : Decision (has_id key id r).
Proof. unfold has_id. apply _. Defined.

(** The record carries the field [key], with a value other than [x]. *)
Definition other_id (key : string) (x : value) (r : record) : Prop :=
  ∃ v, r !! key = Some v ∧ v ≠ x.

(** The field holds an integer. *)
Definition is_int (o : option value) : Prop :=
  match o with
  | Some (VInt _) => True
  | _ => False
  end.

#[global] Instance is_int_dec o : Decision (is_int o).
Proof. destruct o as [[| |]|]; simpl; apply _. Defined.

(** [0 <= available_rooms <= total_rooms] on a hotel record. *)
Definition rooms_in_range (h : record) : bool :=
  match h !! "total_rooms", h !! "available_rooms" with
  | Some (VInt t), Some (VInt a) => (0 <=? a) && (a <=? t)
  | _, _ => false
  end.

(** What [cancel_reservation] does to one hotel record when the cancelled
    reservation names the hotel [hid]. *)
Definition released (hid : value) (h h' : record) : Prop :=
  if decide (h !! "hotel_id" = Some hid)
  then ∃ a, h !! "available_rooms" = Some (VInt a)
            ∧ h' = <["available_rooms" := VInt (a + 1)]> h
  else h' = h.

(** ** Calls with keyword arguments *)

(** Binding the keywords of a call [f(..., **kwargs)] to a function whose
    named parameters are [params]: a keyword that names a parameter already
    given by position makes Python raise [TypeError] ("got multiple values for
    argument") before the body runs. *)
Definition bind_kwargs (params : list string) (kwargs : list (string * value))
    : result unit :=
  if decide (Exists (λ kv : string * value, kv.1 ∈ params) kwargs)
  then Raise TypeError
  else Ok ().

(** [system.modify_hotel(hotel_id, **kwargs)] *)
Definition call_modify_hotel (hotel_id : Z) (kwargs : list (string * value)) : M bool :=
  lift (bind_kwargs ["self"; "hotel_id"] kwargs);;
  modify_hotel hotel_id kwargs.

(** [system.modify_customer(customer_id, **kwargs)] *)
Definition call_modify_customer (customer_id : Z) (kwargs : list (string * value))
    : M bool :=
  lift (bind_kwargs ["self"; "customer_id"] kwargs);;
  modify_customer customer_id kwargs.

(** ** Sequences of calls *)

Inductive call :=
| CreateHotel (hotel_id : Z) (name location : string) (total_rooms : Z)
| DeleteHotel (hotel_id : Z)
| DisplayHotels
| ModifyHotel (hotel_id : Z) (kwargs : list (string * value))
| CreateCustomer (customer_id : Z) (name email phone : string)
| DeleteCustomer (customer_id : Z)
| DisplayCustomers
| ModifyCustomer (customer_id : Z) (kwargs : list (string * value))
| CreateReservation (now : string) (reservation_id customer_id hotel_id : Z)
| CancelReservation (reservation_id : Z)
| DisplayReservations.

(** The world after a call, whatever it returned or raised. *)
Definition perform (c : call) (w : world) : world :=
  match c with
  | CreateHotel i n l t => (create_hotel i n l t w).2
  | DeleteHotel i => (delete_hotel i w).2
  | DisplayHotels => (display_hotels w).2
  | ModifyHotel i kwargs => (call_modify_hotel i kwargs w).2
  | CreateCustomer i n e p => (create_customer i n e p w).2
  | DeleteCustomer i => (delete_customer i w).2
  | DisplayCustomers => (display_customers w).2
  | ModifyCustomer i kwargs => (call_modify_customer i kwargs w).2
  | CreateReservation now r c h => (create_reservation now r c h w).2
  | CancelReservation r => (cancel_reservation r w).2
  | DisplayReservations => (display_reservations w).2
  end.

(** No file yet, every path writable, nothing saved. *)
Definition empty_store : world := World ∅ ∅ [].

Inductive reachable : world → Prop :=
| reachable_empty : reachable empty_store
| reachable_step w c : reachable w → reachable (perform c w).

(** The stores that [test_reservation_flow] of [test_hotel_system.py] goes
    through. *)
Definition hotel_store : world :=
  perform (CreateHotel 1 "Test" "NY" 1) empty_store.

Definition customer_store : world :=
  perform (CreateCustomer 1 "John" "john@mail.com" "123") hotel_store.

Definition booked_store : world :=
  perform (CreateReservation "2026-01-01 12:00:00" 1 1 1) customer_store.

(** A hotels file whose bytes are not UTF-8 text. *)
Definition undecodable_store : world :=
  World {[hotels_file := Undecodable]} ∅ [].

(** Calls that keep the room counters meaningful: a hotel is created with a
    non-negative number of rooms, [modify_hotel] leaves the id and the two
    counters alone, and a hotel is deleted only when no reservation on file
    names it. *)
Definition counter_fields : list string :=
  ["hotel_id"; "total_rooms"; "available_rooms"].

Definition names_hotel (hotel_id : Z) (r : record) : bool :=
  bool_decide (has_id "hotel_id" hotel_id r).

Definition restrained (w : world) (c : call) : bool :=
  match c with
  | CreateHotel _ _ _ total_rooms => bool_decide (0 ≤ total_rooms)
  | ModifyHotel _ kwargs =>
      forallb (λ kv : string * value, bool_decide (kv.1 ∉ counter_fields)) kwargs
  | DeleteHotel hotel_id =>
      negb (existsb (names_hotel hotel_id) (stored reservations_file w))
  | _ => true
  end.

Inductive reachable_restrained : world → Prop :=
| restrained_empty : reachable_restrained empty_store
| restrained_step w c :
    reachable_restrained w → restrained w c = true →
    reachable_restrained (perform c w).

(** A [modify_*] call whose updates name the identity key of its collection. *)
Definition names_identity (c : call) : bool :=
  match c with
  | ModifyHotel _ kwargs =>
      existsb (λ kv : string * value, bool_decide (kv.1 = "hotel_id")) kwargs
  | ModifyCustomer _ kwargs =>
      existsb (λ kv : string * value, bool_decide (kv.1 = "customer_id")) kwargs
  | _ => false
  end.

(** How the identity keys of a collection may evolve when no record has its
    key rewritten: records leave, or one record is appended. *)
Definition ids_kept (before after : list (option value)) : Prop :=
  sublist after before ∨ ∃ x, after = before ++ [x].

(** The three collections with their identity keys. *)
Definition collections : list (string * string) :=
  [(hotels_file, "hotel_id");
   (customers_file, "customer_id");
   (reservations_file, "reservation_id")].

(** ** The room accounting of section 3 of the specification *)

(** The number of reservations that name the hotel [hotel_id]. *)
Definition count_refs (hotel_id : Z) (rs : list record) : Z :=
  Z.of_nat (length (filter (has_id "hotel_id" hotel_id) rs)).

Definition hotel_ok (rs : list record) (h : record) : Prop :=
  ∃ i t a,
    h !! "hotel_id" = Some (VInt i)
    ∧ h !! "total_rooms" = Some (VInt t)
    ∧ h !! "available_rooms" = Some (VInt a)
    ∧ 0 ≤ a ∧ a + count_refs i rs = t.

Definition reservation_ok (hs : list record) (r : record) : Prop :=
  ∃ i, r !! "hotel_id" = Some (VInt i) ∧ Exists (has_id "hotel_id" i) hs.

Definition accounted (hs rs : list record) : Prop :=
  Forall (hotel_ok rs) hs
  ∧ NoDup (ids "hotel_id" hs)
  ∧ Forall (reservation_ok hs) rs.

(** Files are absent or hold a collection, and every path is writable. *)
Definition sound_files (w : world) : Prop :=
  readonly w = ∅
  ∧ ∀ f, files w !! f = None ∨ ∃ d, files w !! f = Some (Json d).

(** The states the restrained calls stay in. *)
Definition consistent (w : world) : Prop :=
  sound_files w ∧ accounted (stored hotels_file w) (stored reservations_file w).


(** A hotel created with a negative number of rooms. *)
Definition overdrawn_store : world :=
  perform (CreateHotel 1 "Test" "NY" (-1)) empty_store.

#[global] Instance file_eq_dec : EqDecision file.
Proof. solve_decision. Defined.

(** No file on disk, and the hotels path cannot be opened for writing. *)
Definition locked_store : world := World ∅ {[hotels_file]} [].

(** A hotels file that cannot be read, a customers file that is not JSON and
    no reservations file. *)
Definition damaged_store : world :=
  World (<[hotels_file := Unreadable]> (<[customers_file := Malformed]> ∅)) ∅ [].

#[global] Instance result_eq_dec {A} `{EqDecision A} : EqDecision (result A).
Proof. solve_decision. Defined.

(** An operation that declined: it returned [False], or a scan met a record
    without the field it reads ([KeyError]), or a file was not UTF-8 text
    ([UnicodeDecodeError]). *)
Definition refused (r : result bool) : Prop :=
  match r with
  | Ok false => True
  | Raise (KeyError _) => True
  | Raise UnicodeDecodeError => True
  | _ => False
  end.

#[global] Instance refused_dec r : Decision (refused r).
Proof. destruct r as [[]|[]]; simpl; apply _. Defined.

(** The files a call may write. *)
Definition touches (c : call) : list string :=
  match c with
  | CreateHotel _ _ _ _ | DeleteHotel _ | ModifyHotel _ _ => [hotels_file]
  | CreateCustomer _ _ _ _ | DeleteCustomer _ | ModifyCustomer _ _ => [customers_file]
  | CreateReservation _ _ _ _ | CancelReservation _ => [hotels_file; reservations_file]
  | DisplayHotels | DisplayCustomers | DisplayReservations => []
  end.

(** A sequence of saves, applied in order. *)
Definition replay (ws : list (string * list record)) (w : world) : world :=
  foldl (λ w s, store s.1 s.2 w) w ws.

(** A hotels file with a record that has lost its [hotel_id], and one whose
    counter was set to a string ([modify_hotel(1, available_rooms="many")]). *)
Definition keyless_store : world :=
  World {[hotels_file := Json [delete "hotel_id" (Hotel.to_dict (Hotel.init 1 "Test" "NY" 1))]]}
        ∅ [].

Definition stringly_store : world :=
  perform (ModifyHotel 1 [("available_rooms", VStr "many")]) customer_store.

(** Sequences of calls none of which rewrites an identity key. *)
Inductive reachable_keyed : world → Prop :=
| keyed_empty : reachable_keyed empty_store
| keyed_step w c :
    reachable_keyed w → names_identity c = false →
    reachable_keyed (perform c w).

(** Identity keys as the data model wants them: every record has one, and no
    two records share it. *)
Definition good_ids (l : list (option value)) : Prop :=
  NoDup l ∧ Forall is_Some l.

(** One call's effect on the identity keys of a collection: some leave, or a
    new one arrives at the end. *)
Definition ids_grow (before after : list (option value)) : Prop :=
  sublist after before ∨ ∃ x, after = before ++ [Some x] ∧ Some x ∉ before.

(** * Properties *)

(** ** Loading and saving *)

Lemma loaded_cases f w :
  loaded f w =
    match files w !! f with
    | Some (Json d) => Ok d
    | Some Undecodable => Raise UnicodeDecodeError
    | _ => Ok []
    end.
Proof.
  unfold loaded, load_data, path_exists, read_json, mbind, M_bind, mret, M_ret.
  destruct (files w !! f) as [x|] eqn:E.
  - rewrite bool_decide_eq_true_2 by eauto. simpl. rewrite E. by destruct x.
  - by rewrite bool_decide_eq_false_2 by (by intros [? ?]).
Qed.

Lemma load_data_eq f w : load_data f w = (loaded f w, w).
Proof.
  rewrite loaded_cases.
  unfold load_data, path_exists, read_json, mbind, M_bind, mret, M_ret.
  destruct (files w !! f) as [x|] eqn:E.
  - rewrite bool_decide_eq_true_2 by eauto. simpl. rewrite E. by destruct x.
  - by rewrite bool_decide_eq_false_2 by (by intros [? ?]).
Qed.

Lemma save_data_eq f d w : save_data f d w = (Ok (), store f d w).
Proof. unfold store, save_data, write_json; simpl. by case_decide. Qed.

Lemma store_files f d w :
  files (store f d w) =
    if decide (f ∈ readonly w) then files w else <[f := Json d]> (files w).
Proof. unfold store, save_data, write_json; simpl. by case_decide. Qed.

Lemma store_readonly f d w : readonly (store f d w) = readonly w.
Proof. unfold store, save_data, write_json; simpl. by case_decide. Qed.

Lemma store_saved f d w : saved (store f d w) = saved w ++ [(f, d)].
Proof. unfold store, save_data, write_json; simpl. by case_decide. Qed.

Lemma loaded_store_eq f d w : f ∉ readonly w → loaded f (store f d w) = Ok d.
Proof.
  intros Hw. rewrite loaded_cases, store_files.
  rewrite decide_False by done. by rewrite lookup_insert_eq.
Qed.

Lemma loaded_store_ne f g d w : f ≠ g → loaded g (store f d w) = loaded g w.
Proof.
  intros Hne. rewrite !loaded_cases, store_files.
  case_decide; [done|]. by rewrite lookup_insert_ne.
Qed.

Lemma loaded_store_readonly f g d w : f ∈ readonly w → loaded g (store f d w) = loaded g w.
Proof. intros Hw. rewrite !loaded_cases, store_files. by rewrite decide_True. Qed.

Lemma stored_store_eq f d w : f ∉ readonly w → stored f (store f d w) = d.
Proof. intros Hw. unfold stored. by rewrite loaded_store_eq. Qed.

Lemma stored_store_ne f g d w : f ≠ g → stored g (store f d w) = stored g w.
Proof. intros Hne. unfold stored. by rewrite loaded_store_ne. Qed.

(** ** The loops *)

Ltac step_result :=
  unfold mbind, result_bind, mret, result_ret, getitem, py_eq in *; simpl in *.

Lemma other_id_keyed key x l : Forall (other_id key x) l → keyed key l.
Proof. intros H. eapply Forall_impl; [exact H|]. intros r (v & -> & _). eauto. Qed.

Lemma keyed_other_id key x l :
  keyed key l → Forall (λ r : record, r !! key ≠ Some x) l → Forall (other_id key x) l.
Proof.
  intros Hk Hn. induction Hk as [|r l [v Hv] _ IH]; inversion_clear Hn; constructor; auto.
  exists v. split; [done|]. congruence.
Qed.

Lemma other_id_not key x r : other_id key x r → r !! key ≠ Some x.
Proof. intros (v & -> & Hv). congruence. Qed.

(** Where a scan that stops at the first match stops. *)
Lemma first_match key x l :
  keyed key l → Exists (λ r : record, r !! key = Some x) l →
  ∃ pre r post,
    l = pre ++ r :: post ∧ Forall (other_id key x) pre ∧ r !! key = Some x.
Proof.
  induction l as [|r l IH]; intros Hk Hex; [by inversion Hex|].
  inversion_clear Hk as [|? ? [v Hv] Hk'].
  destruct (decide (v = x)) as [->|Hne].
  - by exists [], r, l.
  - inversion_clear Hex as [? ? Hr|? ? Hl]; [congruence|].
    destruct (IH Hk' Hl) as (pre & r' & post & -> & Hpre & Hr').
    exists (r :: pre), r', post. repeat split; [|done].
    constructor; [by exists v | done].
Qed.

Lemma any_eq_false key x l :
  any_eq key x l = Ok false ↔ Forall (other_id key x) l.
Proof.
  induction l as [|r l IH]; simpl; [by split; [constructor|]|].
  step_result. destruct (r !! key) as [v|] eqn:E.
  - case_bool_decide as Hv.
    + split; [done|]. inversion_clear 1 as [|? ? (v' & Hv' & Hne) _]. congruence.
    + rewrite IH. split.
      * intros. constructor; [by exists v | done].
      * by inversion_clear 1.
  - split; [done|]. inversion_clear 1 as [|? ? (v' & Hv' & Hne) _]. congruence.
Qed.

Lemma any_eq_true key x pre r post :
  Forall (other_id key x) pre → r !! key = Some x →
  any_eq key x (pre ++ r :: post) = Ok true.
Proof.
  intros Hpre Hr. induction Hpre as [|r' pre (v & Hv & Hne) _ IH]; simpl; step_result.
  - rewrite Hr. by rewrite bool_decide_eq_true_2.
  - rewrite Hv. by rewrite bool_decide_eq_false_2.
Qed.

Lemma any_eq_true_inv key x l :
  any_eq key x l = Ok true → Exists (λ r : record, r !! key = Some x) l.
Proof.
  induction l as [|r l IH]; simpl; [done|]. step_result.
  destruct (r !! key) as [v|] eqn:E; [|done].
  case_bool_decide as Hv; [subst; by left | right; auto].
Qed.

Lemma without_filter key x l :
  keyed key l →
  without key x l = Ok (filter (λ r : record, r !! key ≠ Some x) l).
Proof.
  induction 1 as [|r l [v Hv] _ IH]; [done|]. simpl. step_result.
  rewrite Hv, IH. case_bool_decide as E; subst.
  - by rewrite filter_cons_False by (by intros ?).
  - by rewrite filter_cons_True by congruence.
Qed.

Lemma without_inv key x l l' :
  without key x l = Ok l' →
  l' = filter (λ r : record, r !! key ≠ Some x) l.
Proof.
  revert l'. induction l as [|r l IH]; intros l'; simpl; [by intros [= <-]|].
  step_result. destruct (r !! key) as [v|] eqn:Hv; [|done].
  destruct (without key x l) as [rest|]; [|done]. specialize (IH _ eq_refl). subst rest.
  intros [= <-]. case_bool_decide as E; subst.
  - by rewrite filter_cons_False by (by intros ?).
  - by rewrite filter_cons_True by congruence.
Qed.

Lemma modify_first_none key x kwargs l :
  modify_first key x kwargs l = Ok None ↔ Forall (other_id key x) l.
Proof.
  induction l as [|r l IH]; simpl; [by split; [constructor|]|].
  step_result. destruct (r !! key) as [v|] eqn:E.
  - case_bool_decide as Hv.
    + split; [done|]. inversion_clear 1 as [|? ? (v' & Hv' & Hne) _]. congruence.
    + destruct (modify_first key x kwargs l) as [[l'|]|].
      * split; [done|]. inversion_clear 1 as [|? ? _ Hl]. by apply IH in Hl.
      * split; [|done]. intros _. constructor; [by exists v|]. by apply IH.
      * split; [done|]. inversion_clear 1 as [|? ? _ Hl]. by apply IH in Hl.
  - split; [done|]. inversion_clear 1 as [|? ? (v' & Hv' & Hne) _]. congruence.
Qed.

Lemma modify_first_at key x kwargs pre r post :
  Forall (other_id key x) pre → r !! key = Some x →
  modify_first key x kwargs (pre ++ r :: post)
  = Ok (Some (pre ++ update_fields kwargs r :: post)).
Proof.
  intros Hpre Hr. induction Hpre as [|r' pre (v & Hv & Hne) _ IH]; simpl; step_result.
  - rewrite Hr. by rewrite bool_decide_eq_true_2.
  - rewrite Hv. rewrite bool_decide_eq_false_2 by done. by rewrite IH.
Qed.

Lemma modify_first_some key x kwargs l l' :
  modify_first key x kwargs l = Ok (Some l') →
  ∃ pre r post,
    l = pre ++ r :: post ∧ Forall (other_id key x) pre ∧ r !! key = Some x
    ∧ l' = pre ++ update_fields kwargs r :: post.
Proof.
  revert l'. induction l as [|r l IH]; intros l'; simpl; [done|]. step_result.
  destruct (r !! key) as [v|] eqn:E; [|done].
  case_bool_decide as Hv.
  - intros [= <-]. subst. by exists [], r, l.
  - destruct (modify_first key x kwargs l) as [[l''|]|]; try done.
    intros [= <-]. destruct (IH _ eq_refl) as (pre & r' & post & -> & Hpre & Hr' & ->).
    exists (r :: pre), r', post. repeat split; [|done].
    constructor; [by exists v | done].
Qed.



Lemma find_first_some key x l r :
  find_first key x l = Ok (Some r) →
  ∃ pre post,
    l = pre ++ r :: post ∧ Forall (other_id key x) pre ∧ r !! key = Some x.
Proof.
  induction l as [|r' l IH]; simpl; [done|]. step_result.
  destruct (r' !! key) as [v|] eqn:E; [|done].
  case_bool_decide as Hv.
  - intros [= <-]. subst. by exists [], l.
  - intros Hl. destruct (IH Hl) as (pre & post & -> & Hpre & Hr).
    exists (r' :: pre), post. repeat split; [|done].
    constructor; [by exists v | done].
Qed.

Lemma py_remove_at x pre post :
  x ∉ pre → py_remove x (pre ++ x :: post) = Ok (pre ++ post).
Proof.
  induction pre as [|y pre IH]; intros Hx; simpl.
  - by rewrite decide_True.
  - rewrite decide_False by set_solver. step_result. rewrite IH by set_solver. done.
Qed.

Lemma other_id_not_elem key x r pre :
  Forall (other_id key x) pre → r !! key = Some x → r ∉ pre.
Proof.
  intros Hpre Hr Hin. rewrite Forall_forall in Hpre.
  destruct (Hpre _ Hin) as (v & Hv & Hne). congruence.
Qed.

Lemma book_room_none hid l :
  Forall (other_id "hotel_id" (VInt hid)) l → book_room hid l = Ok NoSuchHotel.
Proof.
  induction 1 as [|r l (v & Hv & Hne) _ IH]; [done|]. simpl. step_result.
  rewrite Hv. rewrite bool_decide_eq_false_2 by done. by rewrite IH.
Qed.

Lemma book_room_at hid pre h post a :
  Forall (other_id "hotel_id" (VInt hid)) pre →
  h !! "hotel_id" = Some (VInt hid) →
  h !! "available_rooms" = Some (VInt a) →
  book_room hid (pre ++ h :: post)
  = Ok (if a <=? 0 then NoRooms
        else Booked (pre ++ <["available_rooms" := VInt (a - 1)]> h :: post)).
Proof.
  intros Hpre Hh Ha. induction Hpre as [|r pre (v & Hv & Hne) _ IH]; simpl; step_result.
  - rewrite Hh. rewrite bool_decide_eq_true_2 by done. rewrite Ha. simpl.
    by destruct (a <=? 0).
  - rewrite Hv. rewrite bool_decide_eq_false_2 by done. rewrite IH.
    by destruct (a <=? 0).
Qed.

Lemma book_room_booked hid l l' :
  book_room hid l = Ok (Booked l') →
  ∃ pre h post a,
    l = pre ++ h :: post
    ∧ Forall (other_id "hotel_id" (VInt hid)) pre
    ∧ h !! "hotel_id" = Some (VInt hid)
    ∧ h !! "available_rooms" = Some (VInt a)
    ∧ 0 < a
    ∧ l' = pre ++ <["available_rooms" := VInt (a - 1)]> h :: post.
Proof.
  revert l'. induction l as [|r l IH]; intros l'; simpl; [done|]. step_result.
  destruct (r !! "hotel_id") as [v|] eqn:E; [|done].
  case_bool_decide as Hv.
  - subst v. destruct (r !! "available_rooms") as [[a| |]|] eqn:Ea; simpl; try done.
    destruct (a <=? 0) eqn:Hle; [done|]. intros [= <-].
    exists [], r, l, a. repeat split; try done. lia.
  - destruct (book_room hid l) as [[| |l'']|]; try done.
    intros [= <-].
    destruct (IH _ eq_refl) as (pre & h & post & a & -> & Hpre & Hh & Ha & Hpos & ->).
    exists (r :: pre), h, post, a. repeat split; try done.
    constructor; [by exists v | done].
Qed.

Lemma release_rooms_inv r hs hs' :
  release_rooms r hs = Ok hs' →
  hs' = hs ∧ hs = [] ∨ ∃ hid, r !! "hotel_id" = Some hid ∧ Forall2 (released hid) hs hs'.
Proof.
  destruct (r !! "hotel_id") as [hid|] eqn:Hr.
  - intros H. right. exists hid. split; [done|]. revert hs' H.
    induction hs as [|h hs IH]; intros hs'; simpl; [intros [= <-]; constructor|].
    step_result. rewrite Hr.
    destruct (h !! "hotel_id") as [v|] eqn:Hv; [|done].
    case_bool_decide as E.
    + subst v. destruct (h !! "available_rooms") as [[a| |]|] eqn:Ha; simpl; try done.
      destruct (release_rooms r hs) as [rest|]; [|done]. intros [= <-].
      constructor; [|by apply IH].
      unfold released. rewrite decide_True by done. eauto.
    + destruct (release_rooms r hs) as [rest|]; [|done]. intros [= <-].
      constructor; [|by apply IH].
      unfold released. rewrite decide_False by congruence. done.
  - destruct hs as [|h hs]; simpl; [intros [= <-]; by left|].
    step_result. rewrite Hr. by destruct (h !! "hotel_id").
Qed.


(** ** The whitelist update *)

Lemma update_fields_is_Some kwargs (d : record) key :
  is_Some (update_fields kwargs d !! key) ↔ is_Some (d !! key).
Proof.
  unfold update_fields. revert d.
  induction kwargs as [|[k v] kwargs IH]; intros d; simpl; [done|].
  rewrite IH. case_decide as Hk; [|done].
  destruct (decide (k = key)) as [->|Hne].
  - rewrite lookup_insert_eq. split; eauto.
  - by rewrite lookup_insert_ne.
Qed.

Lemma update_fields_other kwargs (d : record) key :
  key ∉ kwargs.*1 → update_fields kwargs d !! key = d !! key.
Proof.
  unfold update_fields. revert d.
  induction kwargs as [|[k v] kwargs IH]; intros d Hk; simpl; [done|].
  simpl in Hk. apply not_elem_of_cons in Hk as [Hne Hk].
  rewrite IH by done. case_decide; [|done].
  by rewrite lookup_insert_ne.
Qed.

Lemma update_fields_hit kwargs (d : record) key v :
  NoDup kwargs.*1 → (key, v) ∈ kwargs → is_Some (d !! key) →
  update_fields kwargs d !! key = Some v.
Proof.
  revert d. induction kwargs as [|[k v'] kwargs IH]; intros d Hnd Hin Hd; [by inversion Hin|].
  simpl in Hnd. apply NoDup_cons in Hnd as [Hk Hnd].
  change (update_fields ((k, v') :: kwargs) d)
    with (update_fields kwargs (if decide (is_Some (d !! k)) then <[k := v']> d else d)).
  apply elem_of_cons in Hin as [[= <- <-]|Hin].
  - rewrite update_fields_other by done.
    rewrite decide_True by done. by rewrite lookup_insert_eq.
  - apply IH; [done..|]. case_decide; [|done].
    destruct (decide (k = key)) as [->|Hne].
    + rewrite lookup_insert_eq. eauto.
    + by rewrite lookup_insert_ne.
Qed.

Lemma update_fields_unknown kwargs (d : record) key :
  d !! key = None → update_fields kwargs d !! key = None.
Proof.
  intros Hd. apply eq_None_not_Some. rewrite update_fields_is_Some.
  by rewrite Hd; intros [? ?].
Qed.

(** ** The operations, step by step

    Each operation is its loads, then a computation on the loaded lists, then
    its saves; an exception leaves before the first save. *)

Lemma create_hotel_unfold id n l t w :
  create_hotel id n l t w =
    match loaded hotels_file w with
    | Raise e => (Raise e, w)
    | Ok hs =>
        match any_eq "hotel_id" (VInt id) hs with
        | Raise e => (Raise e, w)
        | Ok true => (Ok false, w)
        | Ok false =>
            (Ok true, store hotels_file (hs ++ [Hotel.to_dict (Hotel.init id n l t)]) w)
        end
    end.
Proof.
  unfold create_hotel, mbind, M_bind, lift. rewrite load_data_eq.
  destruct (loaded hotels_file w) as [hs|]; [|done].
  destruct (any_eq _ _ hs) as [[]|]; try done.
  by rewrite save_data_eq.
Qed.

Lemma create_customer_unfold id n e p w :
  create_customer id n e p w =
    match loaded customers_file w with
    | Raise e => (Raise e, w)
    | Ok cs =>
        match any_eq "customer_id" (VInt id) cs with
        | Raise e => (Raise e, w)
        | Ok true => (Ok false, w)
        | Ok false =>
            (Ok true,
             store customers_file (cs ++ [Customer.to_dict (Customer.init id n e p)]) w)
        end
    end.
Proof.
  unfold create_customer, mbind, M_bind, lift. rewrite load_data_eq.
  destruct (loaded customers_file w) as [cs|]; [|done].
  destruct (any_eq _ _ cs) as [[]|]; try done.
  by rewrite save_data_eq.
Qed.

Lemma delete_hotel_unfold id w :
  delete_hotel id w =
    match loaded hotels_file w with
    | Raise e => (Raise e, w)
    | Ok hs =>
        match without "hotel_id" (VInt id) hs with
        | Raise e => (Raise e, w)
        | Ok hs' =>
            if decide (length hs' = length hs) then (Ok false, w)
            else (Ok true, store hotels_file hs' w)
        end
    end.
Proof.
  unfold delete_hotel, mbind, M_bind, lift. rewrite load_data_eq.
  destruct (loaded hotels_file w) as [hs|]; [|done].
  destruct (without _ _ hs) as [hs'|]; [|done].
  case_decide; [done|]. by rewrite save_data_eq.
Qed.

Lemma delete_customer_unfold id w :
  delete_customer id w =
    match loaded customers_file w with
    | Raise e => (Raise e, w)
    | Ok cs =>
        match without "customer_id" (VInt id) cs with
        | Raise e => (Raise e, w)
        | Ok cs' =>
            if decide (length cs' = length cs) then (Ok false, w)
            else (Ok true, store customers_file cs' w)
        end
    end.
Proof.
  unfold delete_customer, mbind, M_bind, lift. rewrite load_data_eq.
  destruct (loaded customers_file w) as [cs|]; [|done].
  destruct (without _ _ cs) as [cs'|]; [|done].
  case_decide; [done|]. by rewrite save_data_eq.
Qed.

Lemma modify_hotel_unfold id kwargs w :
  modify_hotel id kwargs w =
    match loaded hotels_file w with
    | Raise e => (Raise e, w)
    | Ok hs =>
        match modify_first "hotel_id" (VInt id) kwargs hs with
        | Raise e => (Raise e, w)
        | Ok None => (Ok false, w)
        | Ok (Some hs') => (Ok true, store hotels_file hs' w)
        end
    end.
Proof.
  unfold modify_hotel, mbind, M_bind, lift. rewrite load_data_eq.
  destruct (loaded hotels_file w) as [hs|]; [|done].
  destruct (modify_first _ _ _ hs) as [[hs'|]|]; try done.
  by rewrite save_data_eq.
Qed.

Lemma modify_customer_unfold id kwargs w :
  modify_customer id kwargs w =
    match loaded customers_file w with
    | Raise e => (Raise e, w)
    | Ok cs =>
        match modify_first "customer_id" (VInt id) kwargs cs with
        | Raise e => (Raise e, w)
        | Ok None => (Ok false, w)
        | Ok (Some cs') => (Ok true, store customers_file cs' w)
        end
    end.
Proof.
  unfold modify_customer, mbind, M_bind, lift. rewrite load_data_eq.
  destruct (loaded customers_file w) as [cs|]; [|done].
  destruct (modify_first _ _ _ cs) as [[cs'|]|]; try done.
  by rewrite save_data_eq.
Qed.

Lemma call_modify_hotel_unfold id kwargs w :
  call_modify_hotel id kwargs w =
    if decide (Exists (λ kv : string * value, kv.1 ∈ ["self"; "hotel_id"]) kwargs)
    then (Raise TypeError, w)
    else modify_hotel id kwargs w.
Proof.
  unfold call_modify_hotel, bind_kwargs, mbind, M_bind, lift. by case_decide.
Qed.

Lemma call_modify_customer_unfold id kwargs w :
  call_modify_customer id kwargs w =
    if decide (Exists (λ kv : string * value, kv.1 ∈ ["self"; "customer_id"]) kwargs)
    then (Raise TypeError, w)
    else modify_customer id kwargs w.
Proof.
  unfold call_modify_customer, bind_kwargs, mbind, M_bind, lift. by case_decide.
Qed.

(** Keywords that passed the binding name no parameter. *)
Lemma unbound_avoids (params : list string) (kwargs : list (string * value)) key :
  ¬ Exists (λ kv : string * value, kv.1 ∈ params) kwargs →
  key ∈ params → key ∉ kwargs.*1.
Proof.
  intros Hno Hkey Hin. apply Hno.
  apply list_elem_of_fmap in Hin as (kv & -> & Hin).
  apply Exists_exists. eauto.
Qed.

Lemma create_reservation_unfold now rid cid hid w :
  create_reservation now rid cid hid w =
    match loaded reservations_file w, loaded hotels_file w, loaded customers_file w with
    | Ok rs, Ok hs, Ok cs =>
        match any_eq "reservation_id" (VInt rid) rs with
        | Raise e => (Raise e, w)
        | Ok true => (Ok false, w)
        | Ok false =>
            match any_eq "customer_id" (VInt cid) cs with
            | Raise e => (Raise e, w)
            | Ok false => (Ok false, w)
            | Ok true =>
                match book_room hid hs with
                | Raise e => (Raise e, w)
                | Ok (Booked hs') =>
                    (Ok true,
                     store reservations_file
                       (rs ++ [Reservation.to_dict (Reservation.init now rid cid hid)])
                       (store hotels_file hs' w))
                | Ok _ => (Ok false, w)
                end
            end
        end
    | Raise e, _, _ => (Raise e, w)
    | Ok _, Raise e, _ => (Raise e, w)
    | Ok _, Ok _, Raise e => (Raise e, w)
    end.
Proof.
  unfold create_reservation, mbind, M_bind, lift. rewrite load_data_eq.
  destruct (loaded reservations_file w) as [rs|]; [|done]. rewrite load_data_eq.
  destruct (loaded hotels_file w) as [hs|]; [|done]. rewrite load_data_eq.
  destruct (loaded customers_file w) as [cs|]; [|done].
  destruct (any_eq _ _ rs) as [[]|]; try done.
  destruct (any_eq _ _ cs) as [[]|]; try done. simpl.
  destruct (book_room hid hs) as [[| |hs']|]; try done.
  by rewrite !save_data_eq.
Qed.

Lemma cancel_reservation_unfold rid w :
  cancel_reservation rid w =
    match loaded reservations_file w, loaded hotels_file w with
    | Ok rs, Ok hs =>
        match find_first "reservation_id" (VInt rid) rs with
        | Raise e => (Raise e, w)
        | Ok None => (Ok false, w)
        | Ok (Some r) =>
            match release_rooms r hs, py_remove r rs with
            | Ok hs', Ok rs' =>
                (Ok true, store reservations_file rs' (store hotels_file hs' w))
            | Raise e, _ => (Raise e, w)
            | Ok _, Raise e => (Raise e, w)
            end
        end
    | Raise e, _ => (Raise e, w)
    | Ok _, Raise e => (Raise e, w)
    end.
Proof.
  unfold cancel_reservation, mbind, M_bind, lift. rewrite load_data_eq.
  destruct (loaded reservations_file w) as [rs|]; [|done]. rewrite load_data_eq.
  destruct (loaded hotels_file w) as [hs|]; [|done].
  destruct (find_first _ _ rs) as [[r|]|]; try done.
  destruct (release_rooms r hs) as [hs'|]; [|done].
  destruct (py_remove r rs) as [rs'|]; [|done].
  by rewrite !save_data_eq.
Qed.

Lemma any_eq_decide key x l :
  keyed key l →
  any_eq key x l = Ok (bool_decide (Exists (λ r : record, r !! key = Some x) l)).
Proof.
  intros Hk. case_bool_decide as Hex.
  - destruct (first_match _ _ _ Hk Hex) as (pre & r & post & -> & Hpre & Hr).
    by apply any_eq_true.
  - apply any_eq_false, keyed_other_id; [done|].
    apply Forall_forall. intros r Hin Hr. apply Hex, Exists_exists. eauto.
Qed.

Lemma absent_other_id key id l :
  keyed key l → ¬ Exists (has_id key id) l → Forall (other_id key (VInt id)) l.
Proof.
  intros Hk Hex. apply keyed_other_id; [done|].
  apply Forall_forall. intros r Hin Hr. apply Hex, Exists_exists. eauto.
Qed.

(** With unique keys, the first record carrying a key is the only one. *)
Lemma unique_first key (l pre post : list record) (r r0 : record) :
  NoDup (ids key l) → l = pre ++ r0 :: post → r ∈ l → r !! key = r0 !! key → r = r0.
Proof.
  intros Hnd -> Hin Hk. unfold ids in Hnd. rewrite fmap_app in Hnd. simpl in Hnd.
  apply NoDup_app in Hnd as (_ & Hdisj & Hnd). apply NoDup_cons in Hnd as [Hpost _].
  apply elem_of_app in Hin as [Hin|Hin].
  - exfalso. apply (Hdisj (r !! key)).
    + apply list_elem_of_fmap. eauto.
    + rewrite Hk. left.
  - apply elem_of_cons in Hin as [->|Hin]; [done|].
    exfalso. apply Hpost. rewrite <- Hk. apply list_elem_of_fmap. eauto.
Qed.

(** Closed side conditions are settled by evaluation: that a file loads, or
    a decidable property of what it loads to. *)
Lemma loaded_stored f w :
  match loaded f w with Ok _ => true | Raise _ => false end = true →
  loaded f w = Ok (stored f w).
Proof. unfold stored. by destruct (loaded f w). Qed.

Ltac evaluate :=
  first [ apply loaded_stored; vm_compute; reflexivity
        | apply (bool_decide_unpack _); vm_compute; exact I ].

(** ** Creation *)

(** C5: creating an entity whose id is already present in its collection
    returns [False] and changes nothing, for [create_hotel], [create_customer]
    and [create_reservation] alike: the world after the call is the world
    before it, so no file was saved and every collection loads as before. *)
Theorem create_duplicate_rejected (w : world) (id : Z) :
  (∀ hs n l t,
      loaded hotels_file w = Ok hs → keyed "hotel_id" hs →
      Exists (has_id "hotel_id" id) hs →
      create_hotel id n l t w = (Ok false, w))
  ∧ (∀ cs n e p,
      loaded customers_file w = Ok cs → keyed "customer_id" cs →
      Exists (has_id "customer_id" id) cs →
      create_customer id n e p w = (Ok false, w))
  ∧ (∀ rs hs cs now cid hid,
      loaded reservations_file w = Ok rs → loaded hotels_file w = Ok hs →
      loaded customers_file w = Ok cs → keyed "reservation_id" rs →
      Exists (has_id "reservation_id" id) rs →
      create_reservation now id cid hid w = (Ok false, w)).
Proof.
  split; [|split].
  - intros hs n l t Hl Hk Hex. rewrite create_hotel_unfold, Hl.
    rewrite any_eq_decide by done. by rewrite bool_decide_eq_true_2.
  - intros cs n e p Hl Hk Hex. rewrite create_customer_unfold, Hl.
    rewrite any_eq_decide by done. by rewrite bool_decide_eq_true_2.
  - intros rs hs cs now cid hid Hr Hh Hc Hk Hex.
    rewrite create_reservation_unfold, Hr, Hh, Hc.
    rewrite any_eq_decide by done. by rewrite bool_decide_eq_true_2.
Qed.

Lemma create_duplicate_rejected_witness :
  create_hotel 1 "Test" "NY" 10 booked_store = (Ok false, booked_store)
  ∧ create_customer 1 "John" "john@mail.com" "123" booked_store = (Ok false, booked_store)
  ∧ create_reservation "2026-01-02 09:30:00" 1 1 1 booked_store = (Ok false, booked_store).
Proof.
  destruct (create_duplicate_rejected booked_store 1) as (Hh & Hc & Hr).
  split; [|split].
  - apply (Hh (stored hotels_file booked_store)); evaluate.
  - apply (Hc (stored customers_file booked_store)); evaluate.
  - apply (Hr (stored reservations_file booked_store) (stored hotels_file booked_store)
             (stored customers_file booked_store)); evaluate.
Defined.

(** C10: when no hotel on file has the given id, [create_hotel] succeeds for
    every [total_rooms], negative ones included, and appends a record whose
    [available_rooms] field equals its [total_rooms] field. *)
Theorem create_hotel_fresh (w : world) (id : Z) (n l : string) (t : Z)
    (hs : list record) :
  loaded hotels_file w = Ok hs → keyed "hotel_id" hs →
  ¬ Exists (has_id "hotel_id" id) hs →
  let h := Hotel.to_dict (Hotel.init id n l t) in
  create_hotel id n l t w = (Ok true, store hotels_file (hs ++ [h]) w)
  ∧ h !! "hotel_id" = Some (VInt id)
  ∧ h !! "total_rooms" = Some (VInt t)
  ∧ h !! "available_rooms" = Some (VInt t)
  ∧ (hotels_file ∉ readonly w →
     loaded hotels_file (store hotels_file (hs ++ [h]) w) = Ok (hs ++ [h])).
Proof.
  intros Hl Hk Hex h. split; [|repeat split].
  - rewrite create_hotel_unfold, Hl.
    rewrite any_eq_decide by done. by rewrite bool_decide_eq_false_2.
  - intros Hw. by apply loaded_store_eq.
Qed.

Lemma create_hotel_fresh_witness :
  let h := Hotel.to_dict (Hotel.init 2 "Annex" "NY" (-5)) in
  create_hotel 2 "Annex" "NY" (-5) booked_store
  = (Ok true, store hotels_file (stored hotels_file booked_store ++ [h]) booked_store)
  ∧ h !! "available_rooms" = Some (VInt (-5)).
Proof.
  destruct (create_hotel_fresh booked_store 2 "Annex" "NY" (-5)
              (stored hotels_file booked_store)) as (Hc & _ & _ & Ha & _).
  - evaluate.
  - evaluate.
  - evaluate.
  - by split.
Defined.

(** ** Reservations *)

(** C4: when the customer or the hotel named by the call is not on file,
    [create_reservation] returns [False] and the world is untouched: none of
    the three collections changes and nothing is saved. *)
Theorem create_reservation_unknown (w : world) (now : string) (rid cid hid : Z)
    (rs hs cs : list record) :
  loaded reservations_file w = Ok rs →
  loaded hotels_file w = Ok hs →
  loaded customers_file w = Ok cs →
  keyed "reservation_id" rs → keyed "hotel_id" hs → keyed "customer_id" cs →
  ¬ Exists (has_id "customer_id" cid) cs ∨ ¬ Exists (has_id "hotel_id" hid) hs →
  create_reservation now rid cid hid w = (Ok false, w).
Proof.
  intros Hr Hh Hc Hkr Hkh Hkc Habsent.
  rewrite create_reservation_unfold, Hr, Hh, Hc.
  rewrite any_eq_decide by done. case_bool_decide; [done|].
  rewrite any_eq_decide by done. case_bool_decide as Hcust; [|done].
  destruct Habsent as [Hno|Hno]; [done|].
  by rewrite book_room_none by (by apply absent_other_id).
Qed.

Lemma create_reservation_unknown_witness :
  create_reservation "2026-01-01 12:00:00" 1 99 99 empty_store = (Ok false, empty_store)
  ∧ create_reservation "2026-01-01 12:00:00" 2 1 99 booked_store = (Ok false, booked_store).
Proof.
  split.
  - apply (create_reservation_unknown empty_store _ 1 99 99
             (stored reservations_file empty_store) (stored hotels_file empty_store)
             (stored customers_file empty_store));
      evaluate.
  - apply (create_reservation_unknown booked_store _ 2 1 99
             (stored reservations_file booked_store) (stored hotels_file booked_store)
             (stored customers_file booked_store));
      evaluate.
Defined.

(** C2: with a fresh reservation id, a customer on file and a hotel on file
    that has a room left, [create_reservation] returns [True]; it saves the
    hotels, with that one hotel's [available_rooms] lowered by one and nothing
    else changed, and then the reservations, with one record carrying the
    three ids appended. *)
Theorem create_reservation_books (w : world) (now : string) (rid cid hid : Z)
    (rs hs cs : list record) (h : record) (a : Z) :
  loaded reservations_file w = Ok rs →
  loaded hotels_file w = Ok hs →
  loaded customers_file w = Ok cs →
  keyed "reservation_id" rs → ¬ Exists (has_id "reservation_id" rid) rs →
  keyed "customer_id" cs → Exists (has_id "customer_id" cid) cs →
  keyed "hotel_id" hs → NoDup (ids "hotel_id" hs) →
  h ∈ hs → has_id "hotel_id" hid h → h !! "available_rooms" = Some (VInt a) → 0 < a →
  ∃ pre post,
    hs = pre ++ h :: post ∧
    let hs' := pre ++ <["available_rooms" := VInt (a - 1)]> h :: post in
    let r := Reservation.to_dict (Reservation.init now rid cid hid) in
    let w' := store reservations_file (rs ++ [r]) (store hotels_file hs' w) in
    create_reservation now rid cid hid w = (Ok true, w')
    ∧ saved w' = saved w ++ [(hotels_file, hs'); (reservations_file, rs ++ [r])]
    ∧ r !! "reservation_id" = Some (VInt rid)
    ∧ r !! "customer_id" = Some (VInt cid)
    ∧ r !! "hotel_id" = Some (VInt hid)
    ∧ (hotels_file ∉ readonly w → reservations_file ∉ readonly w →
       loaded hotels_file w' = Ok hs'
       ∧ loaded reservations_file w' = Ok (rs ++ [r])
       ∧ loaded customers_file w' = Ok cs).
Proof.
  intros Hr Hh Hc Hkr Hfresh Hkc Hcust Hkh Hnd Hin Hid Ha Hpos.
  destruct (first_match "hotel_id" (VInt hid) hs Hkh) as (pre & h0 & post & E & Hpre & Hh0).
  { apply Exists_exists. eauto. }
  assert (h = h0) as <-.
  { eapply unique_first; [done..|]. unfold has_id in Hid. congruence. }
  exists pre, post. split; [done|]. intros hs' r w'. split; [|split; [|repeat split]].
  - rewrite create_reservation_unfold, Hr, Hh, Hc.
    rewrite any_eq_decide by done. rewrite bool_decide_eq_false_2 by done.
    rewrite any_eq_decide by done. rewrite bool_decide_eq_true_2 by done.
    rewrite E, (book_room_at hid pre h post a) by done.
    by replace (a <=? 0) with false by lia.
  - unfold w'. rewrite !store_saved, <- app_assoc. done.
  - unfold w'. rewrite loaded_store_ne by done. by apply loaded_store_eq.
  - unfold w'. apply loaded_store_eq. by rewrite store_readonly.
  - unfold w'. by rewrite !loaded_store_ne by done.
Qed.

Lemma create_reservation_books_witness :
  ∃ w', create_reservation "2026-01-01 12:00:00" 1 1 1 customer_store = (Ok true, w')
        ∧ length (saved w') = 4%nat.
Proof.
  destruct (create_reservation_books customer_store "2026-01-01 12:00:00" 1 1 1
              (stored reservations_file customer_store)
              (stored hotels_file customer_store) (stored customers_file customer_store)
              (Hotel.to_dict (Hotel.init 1 "Test" "NY" 1)) 1)
    as (pre & post & _ & Hrun & Hsaved & _); [evaluate..|].
  eexists. split; [exact Hrun|]. by rewrite Hsaved.
Defined.





(** ** Modification *)

(** C6: [modify_hotel] and [modify_customer] return [False] and leave the
    world untouched when no record has the target id.  When one has, they
    return [True] and save the collection with the first such record
    updated and every other record as it was; the update sets exactly the
    proposed keys that are already fields of the record: a proposed key that
    is no field is skipped and adds nothing, and the call still succeeds. *)
Theorem modify_whitelist (w : world) (id : Z) (kwargs : list (string * value)) :
  (∀ hs,
      loaded hotels_file w = Ok hs → keyed "hotel_id" hs →
      (¬ Exists (has_id "hotel_id" id) hs → modify_hotel id kwargs w = (Ok false, w))
      ∧ (Exists (has_id "hotel_id" id) hs →
         ∃ pre h post,
           hs = pre ++ h :: post
           ∧ Forall (other_id "hotel_id" (VInt id)) pre
           ∧ has_id "hotel_id" id h
           ∧ modify_hotel id kwargs w
             = (Ok true, store hotels_file (pre ++ update_fields kwargs h :: post) w)))
  ∧ (∀ cs,
      loaded customers_file w = Ok cs → keyed "customer_id" cs →
      (¬ Exists (has_id "customer_id" id) cs →
       modify_customer id kwargs w = (Ok false, w))
      ∧ (Exists (has_id "customer_id" id) cs →
         ∃ pre c post,
           cs = pre ++ c :: post
           ∧ Forall (other_id "customer_id" (VInt id)) pre
           ∧ has_id "customer_id" id c
           ∧ modify_customer id kwargs w
             = (Ok true, store customers_file (pre ++ update_fields kwargs c :: post) w)))
  ∧ (∀ (d : record) key,
      (d !! key = None → update_fields kwargs d !! key = None)
      ∧ (key ∉ kwargs.*1 → update_fields kwargs d !! key = d !! key)
      ∧ (∀ v, NoDup kwargs.*1 → (key, v) ∈ kwargs → is_Some (d !! key) →
           update_fields kwargs d !! key = Some v)).
Proof.
  split; [|split].
  - intros hs Hl Hk. split.
    + intros Hno. rewrite modify_hotel_unfold, Hl.
      by rewrite (proj2 (modify_first_none _ _ _ _)) by (by apply absent_other_id).
    + intros Hex.
      destruct (first_match "hotel_id" (VInt id) hs Hk Hex)
        as (pre & h & post & -> & Hpre & Hh).
      exists pre, h, post. repeat split; try done.
      rewrite modify_hotel_unfold, Hl. by rewrite modify_first_at.
  - intros cs Hl Hk. split.
    + intros Hno. rewrite modify_customer_unfold, Hl.
      by rewrite (proj2 (modify_first_none _ _ _ _)) by (by apply absent_other_id).
    + intros Hex.
      destruct (first_match "customer_id" (VInt id) cs Hk Hex)
        as (pre & c & post & -> & Hpre & Hc).
      exists pre, c, post. repeat split; try done.
      rewrite modify_customer_unfold, Hl. by rewrite modify_first_at.
  - intros d key. split; [|split].
    + apply update_fields_unknown.
    + apply update_fields_other.
    + intros v. apply update_fields_hit.
Qed.

Lemma modify_whitelist_witness :
  modify_customer 9 [("name", VStr "Jane")] booked_store = (Ok false, booked_store)
  ∧ (∃ pre c post,
       stored customers_file booked_store = pre ++ c :: post
       ∧ modify_customer 1 [("name", VStr "Jane"); ("nickname", VStr "J")] booked_store
         = (Ok true,
            store customers_file
              (pre ++ update_fields [("name", VStr "Jane"); ("nickname", VStr "J")] c
                   :: post) booked_store))
  ∧ (∀ d : record,
       d !! "nickname" = None →
       update_fields [("name", VStr "Jane"); ("nickname", VStr "J")] d !! "nickname" = None).
Proof.
  destruct (modify_whitelist booked_store 9 [("name", VStr "Jane")]) as (_ & Hc & _).
  destruct (Hc (stored customers_file booked_store)) as [Hno _];
    [evaluate..|].
  destruct (modify_whitelist booked_store 1
              [("name", VStr "Jane"); ("nickname", VStr "J")]) as (_ & Hc' & Hu).
  destruct (Hc' (stored customers_file booked_store)) as [_ Hyes];
    [evaluate..|].
  destruct Hyes as (pre & c & post & E & _ & _ & Hrun); [evaluate|].
  split; [apply Hno; evaluate|]. split.
  - by exists pre, c, post.
  - intros d. apply Hu.
Defined.

(** ** Deletion *)

Lemma filter_keeps_all {A} (P : A → Prop) `{!∀ x, Decision (P x)} (l : list A) :
  Forall P l → filter P l = l.
Proof.
  induction 1 as [|x l Hx _ IH]; [done|].
  rewrite filter_cons_True by done. by rewrite IH.
Qed.

(** C8: [delete_hotel] and [delete_customer] never touch the reservations:
    the call either leaves the world as it was or makes one save, of its own
    file, so the reservations file and what it loads to are unchanged, also
    when reservations name the deleted record.  When the id is not on file the
    call returns [False] and the world is untouched. *)
Theorem delete_keeps_reservations (w : world) (id : Z) :
  let wh := (delete_hotel id w).2 in
  let wc := (delete_customer id w).2 in
  (wh = w ∨ ∃ hs', wh = store hotels_file hs' w)
  ∧ (wc = w ∨ ∃ cs', wc = store customers_file cs' w)
  ∧ files wh !! reservations_file = files w !! reservations_file
  ∧ files wc !! reservations_file = files w !! reservations_file
  ∧ loaded reservations_file wh = loaded reservations_file w
  ∧ loaded reservations_file wc = loaded reservations_file w
  ∧ (∀ hs, loaded hotels_file w = Ok hs → keyed "hotel_id" hs →
           ¬ Exists (has_id "hotel_id" id) hs →
           delete_hotel id w = (Ok false, w))
  ∧ (∀ cs, loaded customers_file w = Ok cs → keyed "customer_id" cs →
           ¬ Exists (has_id "customer_id" id) cs →
           delete_customer id w = (Ok false, w)).
Proof.
  intros wh wc.
  assert (wh = w ∨ ∃ hs', wh = store hotels_file hs' w) as Hh.
  { unfold wh. rewrite delete_hotel_unfold.
    destruct (loaded hotels_file w) as [hs|]; [|by left].
    destruct (without _ _ hs) as [hs'|]; [|by left].
    case_decide; [by left|right; by exists hs']. }
  assert (wc = w ∨ ∃ cs', wc = store customers_file cs' w) as Hc.
  { unfold wc. rewrite delete_customer_unfold.
    destruct (loaded customers_file w) as [cs|]; [|by left].
    destruct (without _ _ cs) as [cs'|]; [|by left].
    case_decide; [by left|right; by exists cs']. }
  assert (∀ f d, f ≠ reservations_file →
            files (store f d w) !! reservations_file = files w !! reservations_file) as Hf.
  { intros f d Hne. rewrite store_files. case_decide; [done|]. by rewrite lookup_insert_ne. }
  repeat split; try done.
  - destruct Hh as [->|[hs' ->]]; [done|]. by apply Hf.
  - destruct Hc as [->|[cs' ->]]; [done|]. by apply Hf.
  - destruct Hh as [->|[hs' ->]]; [done|]. by apply loaded_store_ne.
  - destruct Hc as [->|[cs' ->]]; [done|]. by apply loaded_store_ne.
  - intros hs Hl Hk Hno. rewrite delete_hotel_unfold, Hl, without_filter by done.
    rewrite decide_True; [done|]. f_equal. apply filter_keeps_all.
    eapply Forall_impl; [by apply absent_other_id|]. intros r. apply other_id_not.
  - intros cs Hl Hk Hno. rewrite delete_customer_unfold, Hl, without_filter by done.
    rewrite decide_True; [done|]. f_equal. apply filter_keeps_all.
    eapply Forall_impl; [by apply absent_other_id|]. intros r. apply other_id_not.
Qed.

Lemma delete_keeps_reservations_witness :
  loaded reservations_file (delete_hotel 1 booked_store).2
  = loaded reservations_file booked_store
  ∧ length (stored reservations_file (delete_hotel 1 booked_store).2) = 1%nat
  ∧ delete_hotel 5 booked_store = (Ok false, booked_store)
  ∧ delete_customer 5 booked_store = (Ok false, booked_store).
Proof.
  destruct (delete_keeps_reservations booked_store 1) as (_ & _ & _ & _ & Hr & _).
  destruct (delete_keeps_reservations booked_store 5) as (_ & _ & _ & _ & _ & _ & Hh & Hc).
  split; [exact Hr|]. split; [evaluate|]. split.
  - apply (Hh (stored hotels_file booked_store)); evaluate.
  - apply (Hc (stored customers_file booked_store)); evaluate.
Defined.

(** ** Storage faults *)

(** The faults [load_data] names in its [except] clauses are absorbed: a
    missing file, a file that cannot be read and a file whose text is not JSON
    all load as the empty list. *)
Lemma load_data_absorbs (f : string) (w : world) :
  files w !! f = None ∨ files w !! f = Some Unreadable ∨ files w !! f = Some Malformed →
  load_data f w = (Ok [], w).
Proof.
  intros H. rewrite load_data_eq, loaded_cases.
  by destruct H as [->|[->| ->]].
Qed.

(** [save_data] never raises, writable file or not. *)
Lemma save_data_returns (f : string) (d : list record) (w : world) :
  (save_data f d w).1 = Ok ().
Proof. by rewrite save_data_eq. Qed.

(** C7, at its failing input: when [hotels.json] holds bytes that are not
    UTF-8 text, reading it raises [UnicodeDecodeError], which neither
    [except] clause of [load_data] catches; [load_data] raises it instead of
    returning the empty list, and so do the operations that load the hotels. *)
Theorem load_data_undecodable_raises :
  load_data hotels_file undecodable_store = (Raise UnicodeDecodeError, undecodable_store)
  ∧ display_hotels undecodable_store = (Raise UnicodeDecodeError, undecodable_store)
  ∧ create_hotel 1 "Test" "NY" 10 undecodable_store
    = (Raise UnicodeDecodeError, undecodable_store)
  ∧ create_reservation "2026-01-01 12:00:00" 1 1 1 undecodable_store
    = (Raise UnicodeDecodeError, undecodable_store).
Proof. repeat split; by vm_compute. Qed.

(** ** Identity keys *)

Lemma stored_store f g d w :
  stored g (store f d w)
  = if decide (g = f ∧ f ∉ readonly w) then d else stored g w.
Proof.
  case_decide as H.
  - destruct H as [-> Hw]. by apply stored_store_eq.
  - destruct (decide (f = g)) as [->|Hne]; [|by apply stored_store_ne].
    unfold stored. rewrite loaded_store_readonly; [done|].
    destruct (decide (g ∈ readonly w)); [done|]. by destruct H.
Qed.

Lemma loaded_Ok_stored f w l : loaded f w = Ok l → stored f w = l.
Proof. unfold stored. by intros ->. Qed.

Lemma ids_kept_refl l : ids_kept l l.
Proof. by left. Qed.

Lemma kept_after_store f d w g key :
  (g = f → ids_kept (ids key (stored f w)) (ids key d)) →
  ids_kept (ids key (stored g w)) (ids key (stored g (store f d w))).
Proof.
  intros H. rewrite stored_store. case_decide as E; [|apply ids_kept_refl].
  destruct E as [-> _]. by apply H.
Qed.

Lemma kept_after_stores f1 f2 d1 d2 w g key :
  f1 ≠ f2 →
  (g = f1 → ids_kept (ids key (stored f1 w)) (ids key d1)) →
  (g = f2 → ids_kept (ids key (stored f2 w)) (ids key d2)) →
  ids_kept (ids key (stored g w))
           (ids key (stored g (store f2 d2 (store f1 d1 w)))).
Proof.
  intros Hne H1 H2. rewrite stored_store. case_decide as E.
  - destruct E as [-> _]. by apply H2.
  - by apply kept_after_store.
Qed.

Lemma ids_app key l1 l2 : ids key (l1 ++ l2) = ids key l1 ++ ids key l2.
Proof. apply fmap_app. Qed.

Lemma ids_filter_sublist key (P : record → Prop) `{!∀ r, Decision (P r)} l :
  sublist (ids key (filter P l)) (ids key l).
Proof. apply fmap_sublist, sublist_filter. Qed.

Lemma py_remove_sublist x l l' : py_remove x l = Ok l' → sublist l' l.
Proof.
  revert l'. induction l as [|y l IH]; intros l'; simpl; [done|].
  case_decide.
  - intros [= <-]. by apply sublist_cons.
  - step_result. destruct (py_remove x l) as [l''|]; [|done].
    intros [= <-]. by apply sublist_skip, IH.
Qed.

Lemma released_ids hid hs hs' :
  Forall2 (released hid) hs hs' → ids "hotel_id" hs' = ids "hotel_id" hs.
Proof.
  induction 1 as [|h h' hs hs' Hh _ IH]; [done|]. simpl. f_equal; [|done].
  unfold released in Hh. case_decide; [|by subst].
  destruct Hh as (a & _ & ->). by rewrite lookup_insert_ne.
Qed.

Lemma avoids_key key (kwargs : list (string * value)) :
  existsb (λ kv : string * value, bool_decide (kv.1 = key)) kwargs = false →
  key ∉ kwargs.*1.
Proof.
  induction kwargs as [|[k v] kwargs IH]; simpl; [intros _; apply not_elem_of_nil|].
  intros H. apply orb_false_iff in H as [Hk H].
  apply bool_decide_eq_false in Hk. apply not_elem_of_cons. split; [done|]. by apply IH.
Qed.

Lemma modified_ids key x kwargs l l' :
  key ∉ kwargs.*1 →
  modify_first key x kwargs l = Ok (Some l') → ids key l' = ids key l.
Proof.
  intros Hk H. apply modify_first_some in H as (pre & r & post & -> & _ & _ & ->).
  rewrite !ids_app. simpl. by rewrite update_fields_other.
Qed.

Lemma booked_ids hid l l' :
  book_room hid l = Ok (Booked l') → ids "hotel_id" l' = ids "hotel_id" l.
Proof.
  intros H. apply book_room_booked in H as (pre & h & post & a & -> & _ & _ & _ & _ & ->).
  rewrite !ids_app. simpl. by rewrite lookup_insert_ne.
Qed.

(** A collection's identity keys across one call. *)
Ltac each_collection :=
  unfold collections; repeat apply Forall_cons_2; [..|apply Forall_nil_2]; simpl.

(** C9: no call rewrites the identity key of a record.  In each of the three
    collections the identity keys after the call are those before it, in the
    same order, with some removed (a delete or a cancel) or with one appended
    (a create).  In particular no [modify_*] call does, whatever its keyword
    arguments: the identity key is a parameter of the method, so a call that
    names it as a keyword is refused with [TypeError] before the body runs,
    and the whitelist update only ever sees other keys. *)
Theorem identity_keys_kept (c : call) (w : world) :
  Forall (λ fk : string * string,
            ids_kept (ids fk.2 (stored fk.1 w)) (ids fk.2 (stored fk.1 (perform c w))))
         collections.
Proof.
  destruct c as [i n l t|i| |i kw|i n e p|i| |i kw|now r c h|r|]; simpl.
  - rewrite create_hotel_unfold.
    destruct (loaded hotels_file w) as [hs|] eqn:Hl; simpl;
      [|each_collection; apply ids_kept_refl].
    destruct (any_eq _ _ hs) as [[]|]; simpl;
      [each_collection; apply ids_kept_refl| |each_collection; apply ids_kept_refl].
    each_collection; apply kept_after_store; intros E; try discriminate E.
    rewrite (loaded_Ok_stored _ _ _ Hl), ids_app. right. by eexists.
  - rewrite delete_hotel_unfold.
    destruct (loaded hotels_file w) as [hs|] eqn:Hl; simpl;
      [|each_collection; apply ids_kept_refl].
    destruct (without _ _ hs) as [hs'|] eqn:Hw; simpl;
      [|each_collection; apply ids_kept_refl].
    case_decide; simpl; [each_collection; apply ids_kept_refl|].
    each_collection; apply kept_after_store; intros E; try discriminate E.
    rewrite (loaded_Ok_stored _ _ _ Hl), (without_inv _ _ _ _ Hw).
    left. apply ids_filter_sublist.
  - unfold display_hotels. rewrite load_data_eq. each_collection; apply ids_kept_refl.
  - rewrite call_modify_hotel_unfold.
    case_decide as Hb; simpl; [each_collection; apply ids_kept_refl|].
    rewrite modify_hotel_unfold.
    destruct (loaded hotels_file w) as [hs|] eqn:Hl; simpl;
      [|each_collection; apply ids_kept_refl].
    destruct (modify_first _ _ _ hs) as [[hs'|]|] eqn:Hm; simpl;
      [|each_collection; apply ids_kept_refl..].
    each_collection; apply kept_after_store; intros E; try discriminate E.
    rewrite (loaded_Ok_stored _ _ _ Hl).
    rewrite (modified_ids _ _ _ _ _
               (unbound_avoids _ _ "hotel_id" Hb ltac:(set_solver)) Hm).
    apply ids_kept_refl.
  - rewrite create_customer_unfold.
    destruct (loaded customers_file w) as [cs|] eqn:Hl; simpl;
      [|each_collection; apply ids_kept_refl].
    destruct (any_eq _ _ cs) as [[]|]; simpl;
      [each_collection; apply ids_kept_refl| |each_collection; apply ids_kept_refl].
    each_collection; apply kept_after_store; intros E; try discriminate E.
    rewrite (loaded_Ok_stored _ _ _ Hl), ids_app. right. by eexists.
  - rewrite delete_customer_unfold.
    destruct (loaded customers_file w) as [cs|] eqn:Hl; simpl;
      [|each_collection; apply ids_kept_refl].
    destruct (without _ _ cs) as [cs'|] eqn:Hw; simpl;
      [|each_collection; apply ids_kept_refl].
    case_decide; simpl; [each_collection; apply ids_kept_refl|].
    each_collection; apply kept_after_store; intros E; try discriminate E.
    rewrite (loaded_Ok_stored _ _ _ Hl), (without_inv _ _ _ _ Hw).
    left. apply ids_filter_sublist.
  - unfold display_customers. rewrite load_data_eq. each_collection; apply ids_kept_refl.
  - rewrite call_modify_customer_unfold.
    case_decide as Hb; simpl; [each_collection; apply ids_kept_refl|].
    rewrite modify_customer_unfold.
    destruct (loaded customers_file w) as [cs|] eqn:Hl; simpl;
      [|each_collection; apply ids_kept_refl].
    destruct (modify_first _ _ _ cs) as [[cs'|]|] eqn:Hm; simpl;
      [|each_collection; apply ids_kept_refl..].
    each_collection; apply kept_after_store; intros E; try discriminate E.
    rewrite (loaded_Ok_stored _ _ _ Hl).
    rewrite (modified_ids _ _ _ _ _
               (unbound_avoids _ _ "customer_id" Hb ltac:(set_solver)) Hm).
    apply ids_kept_refl.
  - rewrite create_reservation_unfold.
    destruct (loaded reservations_file w) as [rs|] eqn:Hr; simpl;
      [|each_collection; apply ids_kept_refl].
    destruct (loaded hotels_file w) as [hs|] eqn:Hh; simpl;
      [|each_collection; apply ids_kept_refl].
    destruct (loaded customers_file w) as [cs|] eqn:Hcs; simpl;
      [|each_collection; apply ids_kept_refl].
    destruct (any_eq _ _ rs) as [[]|]; simpl;
      [each_collection; apply ids_kept_refl| |each_collection; apply ids_kept_refl].
    destruct (any_eq _ _ cs) as [[]|]; simpl;
      [|each_collection; apply ids_kept_refl..].
    destruct (book_room h hs) as [[| |hs']|] eqn:Hb; simpl;
      [each_collection; apply ids_kept_refl..| |each_collection; apply ids_kept_refl].
    each_collection; apply kept_after_stores; try done; intros E; try discriminate E.
    + rewrite (loaded_Ok_stored _ _ _ Hh), (booked_ids _ _ _ Hb). apply ids_kept_refl.
    + rewrite (loaded_Ok_stored _ _ _ Hr), ids_app. right. by eexists.
  - rewrite cancel_reservation_unfold.
    destruct (loaded reservations_file w) as [rs|] eqn:Hr; simpl;
      [|each_collection; apply ids_kept_refl].
    destruct (loaded hotels_file w) as [hs|] eqn:Hh; simpl;
      [|each_collection; apply ids_kept_refl].
    destruct (find_first _ _ rs) as [[x|]|]; simpl;
      [|each_collection; apply ids_kept_refl..].
    destruct (release_rooms x hs) as [hs'|] eqn:Hrel; simpl;
      [|each_collection; apply ids_kept_refl].
    destruct (py_remove x rs) as [rs'|] eqn:Hrm; simpl;
      [|each_collection; apply ids_kept_refl].
    each_collection; apply kept_after_stores; try done; intros E; try discriminate E.
    + rewrite (loaded_Ok_stored _ _ _ Hh).
      destruct (release_rooms_inv _ _ _ Hrel) as [[-> _]|(hid & _ & HF)];
        [apply ids_kept_refl|].
      rewrite (released_ids _ _ _ HF). apply ids_kept_refl.
    + rewrite (loaded_Ok_stored _ _ _ Hr). left.
      apply fmap_sublist. by eapply py_remove_sublist.
  - unfold display_reservations. rewrite load_data_eq.
    each_collection; apply ids_kept_refl.
Qed.

(** ** Room accounting *)

Lemma count_refs_app i l1 l2 :
  count_refs i (l1 ++ l2) = count_refs i l1 + count_refs i l2.
Proof. unfold count_refs. rewrite filter_app, length_app. lia. Qed.

Lemma count_refs_one i (r : record) :
  count_refs i [r] = if decide (has_id "hotel_id" i r) then 1 else 0.
Proof.
  unfold count_refs. case_decide.
  - by rewrite filter_cons_True.
  - by rewrite filter_cons_False.
Qed.

Lemma count_refs_nonneg i l : 0 ≤ count_refs i l.
Proof. unfold count_refs. lia. Qed.

Lemma count_refs_none i l :
  Forall (λ r : record, ¬ has_id "hotel_id" i r) l → count_refs i l = 0.
Proof.
  induction 1 as [|r l Hr _ IH]; [done|].
  change (r :: l) with ([r] ++ l). rewrite count_refs_app, count_refs_one, IH.
  by rewrite decide_False.
Qed.

Lemma exists_id_ids key j (l : list record) :
  Exists (has_id key j) l ↔ Some (VInt j) ∈ ids key l.
Proof.
  unfold ids. rewrite Exists_exists, list_elem_of_fmap. unfold has_id.
  split; intros (r & H1 & H2); exists r; by split.
Qed.

Lemma reservation_ok_ids hs hs' r :
  ids "hotel_id" hs' = ids "hotel_id" hs → reservation_ok hs r → reservation_ok hs' r.
Proof.
  intros E (i & Hr & Hex). exists i. split; [done|].
  apply exists_id_ids. rewrite E. by apply exists_id_ids.
Qed.

Lemma hotel_ok_rooms rs h : hotel_ok rs h → rooms_in_range h = true.
Proof.
  intros (i & t & a & _ & Ht & Ha & Hpos & Hsum). unfold rooms_in_range.
  rewrite Ht, Ha. pose proof (count_refs_nonneg i rs).
  apply andb_true_iff. split; lia.
Qed.

(** A hotel record whose id and counters are those of another. *)
Lemma hotel_ok_same rs (h h' : record) :
  h' !! "hotel_id" = h !! "hotel_id" →
  h' !! "total_rooms" = h !! "total_rooms" →
  h' !! "available_rooms" = h !! "available_rooms" →
  hotel_ok rs h → hotel_ok rs h'.
Proof.
  intros E1 E2 E3 (i & t & a & H1 & H2 & H3 & H4). exists i, t, a.
  rewrite E1, E2, E3. done.
Qed.

Lemma accounted_nil : accounted [] [].
Proof. repeat split; constructor. Qed.

Lemma accounted_create_hotel hs rs i n l t :
  accounted hs rs → any_eq "hotel_id" (VInt i) hs = Ok false → 0 ≤ t →
  accounted (hs ++ [Hotel.to_dict (Hotel.init i n l t)]) rs.
Proof.
  intros (Hh & Hnd & Hr) Hfresh Ht. apply any_eq_false in Hfresh.
  assert (Some (VInt i) ∉ ids "hotel_id" hs) as Hnot.
  { intros Hin. apply exists_id_ids, Exists_exists in Hin as (h & Hin & Hid).
    rewrite Forall_forall in Hfresh. by apply (other_id_not _ _ _ (Hfresh _ Hin)). }
  split; [|split].
  - apply Forall_app. split; [done|]. constructor; [|constructor].
    exists i, t, t. repeat split; try done.
    rewrite count_refs_none; [lia|].
    eapply Forall_impl; [exact Hr|]. intros r (j & Hj & Hex) Hi.
    unfold has_id in Hi. rewrite Hj in Hi. injection Hi as ->.
    by apply Hnot, exists_id_ids.
  - rewrite ids_app. apply NoDup_app. split; [done|]. split.
    + intros x Hx Hx'. apply list_elem_of_singleton in Hx'. by subst.
    + apply NoDup_singleton.
  - eapply Forall_impl; [exact Hr|]. intros r (j & Hj & Hex). exists j.
    split; [done|]. apply Exists_app. by left.
Qed.

Lemma accounted_delete_hotel hs rs i :
  accounted hs rs →
  Forall (λ r : record, ¬ has_id "hotel_id" i r) rs →
  accounted (filter (λ h : record, h !! "hotel_id" ≠ Some (VInt i)) hs) rs.
Proof.
  intros (Hh & Hnd & Hr) Hfree. split; [|split].
  - apply Forall_forall. intros h Hin. apply list_elem_of_filter in Hin as [_ Hin].
    rewrite Forall_forall in Hh. by apply Hh.
  - eapply sublist_NoDup; [exact Hnd|apply ids_filter_sublist].
  - rewrite Forall_forall in Hr, Hfree. apply Forall_forall. intros r Hin.
    destruct (Hr _ Hin) as (j & Hj & Hex). exists j. split; [done|].
    apply Exists_exists in Hex as (h & Hh' & Hid). apply Exists_exists.
    exists h. split; [|done]. apply list_elem_of_filter. split; [|done].
    intros E. apply (Hfree _ Hin). unfold has_id in *. congruence.
Qed.

Lemma accounted_modify_hotel hs hs' rs x kwargs :
  accounted hs rs →
  Forall (λ kv : string * value, kv.1 ∉ counter_fields) kwargs →
  modify_first "hotel_id" x kwargs hs = Ok (Some hs') →
  accounted hs' rs.
Proof.
  intros (Hh & Hnd & Hr) Hkw Hm.
  assert (∀ key, key ∈ counter_fields → key ∉ kwargs.*1) as Hout.
  { intros key Hkey Hin. apply list_elem_of_fmap in Hin as ([k v] & -> & Hin).
    rewrite Forall_forall in Hkw. by apply (Hkw _ Hin). }
  apply modify_first_some in Hm as (pre & h & post & -> & _ & _ & ->).
  assert (ids "hotel_id" (pre ++ update_fields kwargs h :: post)
          = ids "hotel_id" (pre ++ h :: post)) as Eids.
  { rewrite !ids_app. simpl. rewrite update_fields_other; [done|].
    apply Hout. unfold counter_fields. set_solver. }
  split; [|split].
  - apply Forall_app in Hh as [Hpre Hpost]. apply Forall_cons in Hpost as [Hh Hpost].
    apply Forall_app. split; [done|]. constructor; [|done].
    eapply hotel_ok_same; [..|exact Hh]; apply update_fields_other, Hout;
      unfold counter_fields; set_solver.
  - by rewrite Eids.
  - eapply Forall_impl; [exact Hr|]. intros r. by apply reservation_ok_ids.
Qed.

Lemma unique_others key (pre post : list record) (h h2 : record) :
  NoDup (ids key (pre ++ h :: post)) → h2 ∈ pre ++ post → h2 !! key ≠ h !! key.
Proof.
  intros Hnd Hin E. rewrite ids_app in Hnd. simpl in Hnd.
  apply NoDup_app in Hnd as (_ & Hdisj & Hnd). apply NoDup_cons in Hnd as [Hpost _].
  apply elem_of_app in Hin as [Hin|Hin].
  - apply (Hdisj (h2 !! key)).
    + apply list_elem_of_fmap. eauto.
    + rewrite E. left.
  - apply Hpost. rewrite <- E. apply list_elem_of_fmap. eauto.
Qed.

(** Moving a hotel's counter together with the number of reservations that
    name it. *)
Lemma hotel_ok_shift rs rs' (h h' : record) i a a' :
  hotel_ok rs h →
  h !! "hotel_id" = Some (VInt i) →
  h !! "available_rooms" = Some (VInt a) →
  h' !! "hotel_id" = h !! "hotel_id" →
  h' !! "total_rooms" = h !! "total_rooms" →
  h' !! "available_rooms" = Some (VInt a') →
  0 ≤ a' →
  a' + count_refs i rs' = a + count_refs i rs →
  hotel_ok rs' h'.
Proof.
  intros (i0 & t & a0 & H1 & H2 & H3 & H4 & H5) Hi Ha E1 E2 E3 Hpos Hsum.
  rewrite H1 in Hi. injection Hi as ->. rewrite H3 in Ha. injection Ha as ->.
  exists i, t, a'. rewrite E1, E2. repeat split; try done. lia.
Qed.

Lemma hotel_ok_other rs rs' (h : record) :
  hotel_ok rs h →
  (∀ i, h !! "hotel_id" = Some (VInt i) → count_refs i rs' = count_refs i rs) →
  hotel_ok rs' h.
Proof.
  intros (i & t & a & H1 & H2 & H3 & H4 & H5) Hsame.
  exists i, t, a. repeat split; try done. rewrite (Hsame i H1). done.
Qed.

Lemma accounted_book hs hs' rs now rid cid hid :
  accounted hs rs → book_room hid hs = Ok (Booked hs') →
  accounted hs' (rs ++ [Reservation.to_dict (Reservation.init now rid cid hid)]).
Proof.
  intros (Hh & Hnd & Hr) Hb.
  apply book_room_booked in Hb as (pre & h & post & a & -> & _ & Hid & Ha & Hpos & ->).
  set (r := Reservation.to_dict (Reservation.init now rid cid hid)).
  assert (r !! "hotel_id" = Some (VInt hid)) as Hrh by done.
  assert (ids "hotel_id" (pre ++ <["available_rooms" := VInt (a - 1)]> h :: post)
          = ids "hotel_id" (pre ++ h :: post)) as Eids.
  { rewrite !ids_app. simpl. by rewrite lookup_insert_ne. }
  assert (∀ h2, h2 ∈ pre ++ post → hotel_ok rs h2 → hotel_ok (rs ++ [r]) h2) as Hother.
  { intros h2 Hin Hok. apply (hotel_ok_other rs); [done|]. intros j Hj.
    rewrite count_refs_app, count_refs_one. rewrite decide_False; [lia|].
    unfold has_id. rewrite Hrh. intros [= ->].
    apply (unique_others _ _ _ _ _ Hnd Hin). congruence. }
  split; [|split].
  - apply Forall_app in Hh as [Hpre Hpost]. apply Forall_cons in Hpost as [Hh Hpost].
    apply Forall_app. split; [|constructor].
    + apply Forall_forall. intros h2 Hin. apply Hother; [set_solver|].
      rewrite Forall_forall in Hpre. by apply Hpre.
    + apply (hotel_ok_shift rs _ h _ hid a (a - 1)); try done.
      * by rewrite lookup_insert_ne.
      * by rewrite lookup_insert_ne.
      * by rewrite lookup_insert_eq.
      * lia.
      * rewrite count_refs_app, count_refs_one. rewrite decide_True by done. lia.
    + apply Forall_forall. intros h2 Hin. apply Hother; [set_solver|].
      rewrite Forall_forall in Hpost. by apply Hpost.
  - by rewrite Eids.
  - apply Forall_app. split.
    + eapply Forall_impl; [exact Hr|]. intros r0. by apply reservation_ok_ids.
    + constructor; [|constructor]. exists hid. split; [done|].
      apply Exists_app. right. left. unfold has_id. by rewrite lookup_insert_ne.
Qed.

Lemma released_hotel_ok i rs rs' hs hs' :
  Forall2 (released (VInt i)) hs hs' →
  count_refs i rs = count_refs i rs' + 1 →
  (∀ j, j ≠ i → count_refs j rs' = count_refs j rs) →
  Forall (hotel_ok rs) hs → Forall (hotel_ok rs') hs'.
Proof.
  intros HF Hi Hother. induction HF as [|h h' hs hs' Hrel _ IH]; [done|].
  intros Hall. apply Forall_cons in Hall as [Hh Hall]. constructor; [|by apply IH].
  unfold released in Hrel. case_decide as Hid.
  - destruct Hrel as (a & Ha & ->).
    apply (hotel_ok_shift rs _ h _ i a (a + 1)); try done.
    + by rewrite lookup_insert_ne.
    + by rewrite lookup_insert_ne.
    + by rewrite lookup_insert_eq.
    + destruct Hh as (i0 & t & a0 & _ & _ & H3 & H4 & _).
      rewrite H3 in Ha. injection Ha as ->. lia.
    + lia.
  - subst h'. apply (hotel_ok_other rs); [done|]. intros j Hj.
    apply Hother. intros ->. done.
Qed.

Lemma accounted_cancel hs hs' rs rs' rid r :
  accounted hs rs →
  find_first "reservation_id" (VInt rid) rs = Ok (Some r) →
  release_rooms r hs = Ok hs' →
  py_remove r rs = Ok rs' →
  accounted hs' rs'.
Proof.
  intros (Hh & Hnd & Hr) Hfind Hrel Hrm.
  apply find_first_some in Hfind as (pre & post & -> & Hpre & Hrid).
  rewrite py_remove_at in Hrm by (by eapply other_id_not_elem). injection Hrm as <-.
  apply Forall_app in Hr as [Hrpre Hrpost]. apply Forall_cons in Hrpost as [Hrr Hrpost].
  destruct Hrr as (i & Hri & Hex).
  destruct (release_rooms_inv _ _ _ Hrel) as [[-> ->]|(hid & Hhid & HF)].
  { by apply Exists_nil in Hex. }
  rewrite Hri in Hhid. injection Hhid as <-.
  pose proof (released_ids _ _ _ HF) as Eids.
  split; [|split].
  - apply (released_hotel_ok i (pre ++ r :: post) _ hs hs' HF); [| |done].
    + change (r :: post) with ([r] ++ post).
      rewrite !count_refs_app, count_refs_one. rewrite decide_True by done. lia.
    + intros j Hne. change (r :: post) with ([r] ++ post).
      rewrite !count_refs_app, count_refs_one. rewrite decide_False; [lia|].
      unfold has_id. rewrite Hri. by intros [= ->].
  - by rewrite Eids.
  - apply Forall_app. split.
    + eapply Forall_impl; [exact Hrpre|]. intros r0. by apply reservation_ok_ids.
    + eapply Forall_impl; [exact Hrpost|]. intros r0. by apply reservation_ok_ids.
Qed.

(** ** Reachable states *)

Lemma sound_loaded f w : sound_files w → loaded f w = Ok (stored f w).
Proof.
  intros [_ Hf]. unfold stored. rewrite loaded_cases.
  by destruct (Hf f) as [->|[d ->]].
Qed.

Lemma sound_store f d w : sound_files w → sound_files (store f d w).
Proof.
  intros [Hro Hf]. split; [by rewrite store_readonly|].
  intros g. rewrite store_files, Hro. rewrite decide_False by set_solver.
  destruct (decide (f = g)) as [->|Hne].
  - right. rewrite lookup_insert_eq. eauto.
  - rewrite lookup_insert_ne by done. apply Hf.
Qed.

Lemma sound_stored_store f g d w :
  sound_files w → stored g (store f d w) = if decide (g = f) then d else stored g w.
Proof.
  intros [Hro _]. rewrite stored_store, Hro.
  destruct (decide (g = f)) as [->|Hne].
  - rewrite decide_True; [done|]. split; [done|]. set_solver.
  - rewrite decide_False; [done|]. by intros [? _].
Qed.

Lemma consistent_save_hotels w hs' :
  sound_files w → accounted hs' (stored reservations_file w) →
  consistent (store hotels_file hs' w).
Proof.
  intros Hs Ha. split; [by apply sound_store|].
  rewrite !sound_stored_store by done.
  rewrite decide_True by done. by rewrite decide_False by done.
Qed.

Lemma consistent_save_customers w cs' :
  consistent w → consistent (store customers_file cs' w).
Proof.
  intros [Hs Ha]. split; [by apply sound_store|].
  rewrite !sound_stored_store by done. by rewrite !decide_False by done.
Qed.

Lemma consistent_save_both w hs' rs' :
  sound_files w → accounted hs' rs' →
  consistent (store reservations_file rs' (store hotels_file hs' w)).
Proof.
  intros Hs Ha. split; [by apply sound_store, sound_store|].
  rewrite !sound_stored_store by (by repeat apply sound_store).
  rewrite (decide_False (P := hotels_file = reservations_file)) by done.
  by rewrite !decide_True by done.
Qed.

Lemma restrained_kwargs (kwargs : list (string * value)) :
  forallb (λ kv : string * value, bool_decide (kv.1 ∉ counter_fields)) kwargs = true →
  Forall (λ kv : string * value, kv.1 ∉ counter_fields) kwargs.
Proof.
  induction kwargs as [|kv kwargs IH]; simpl; [constructor|].
  intros H. apply andb_true_iff in H as [Hkv H].
  constructor; [by apply bool_decide_eq_true in Hkv | by apply IH].
Qed.

Lemma restrained_delete i (rs : list record) :
  negb (existsb (names_hotel i) rs) = true →
  Forall (λ r : record, ¬ has_id "hotel_id" i r) rs.
Proof.
  induction rs as [|r rs IH]; simpl; [constructor|].
  intros H. apply negb_true_iff, orb_false_iff in H as [Hr H].
  constructor.
  - by apply bool_decide_eq_false in Hr.
  - apply IH. by rewrite H.
Qed.

Lemma consistent_empty : consistent empty_store.
Proof.
  split; [split; [done|]|apply accounted_nil].
  intros f. left. apply lookup_empty.
Qed.

Lemma consistent_step w c :
  consistent w → restrained w c = true → consistent (perform c w).
Proof.
  intros [Hs Ha] Hc.
  destruct c as [i n l t|i| |i kw|i n e p|i| |i kw|now r c h|r|]; simpl.
  - rewrite create_hotel_unfold, (sound_loaded _ _ Hs).
    destruct (any_eq _ _ _) as [[]|] eqn:Hany; simpl; try done.
    apply consistent_save_hotels; [done|].
    apply accounted_create_hotel; [done..|]. by apply bool_decide_eq_true in Hc.
  - rewrite delete_hotel_unfold, (sound_loaded _ _ Hs).
    destruct (without _ _ _) as [hs'|] eqn:Hw; simpl; [|done].
    case_decide; simpl; [done|].
    apply consistent_save_hotels; [done|].
    rewrite (without_inv _ _ _ _ Hw).
    apply accounted_delete_hotel; [done|]. by apply restrained_delete.
  - unfold display_hotels. by rewrite load_data_eq.
  - rewrite call_modify_hotel_unfold. case_decide; simpl; [done|].
    rewrite modify_hotel_unfold, (sound_loaded _ _ Hs).
    destruct (modify_first _ _ _ _) as [[hs'|]|] eqn:Hm; simpl; try done.
    apply consistent_save_hotels; [done|].
    eapply accounted_modify_hotel; [done| |done]. by apply restrained_kwargs.
  - rewrite create_customer_unfold, (sound_loaded _ _ Hs).
    destruct (any_eq _ _ _) as [[]|]; simpl; try done.
    by apply consistent_save_customers.
  - rewrite delete_customer_unfold, (sound_loaded _ _ Hs).
    destruct (without _ _ _) as [cs'|]; simpl; [|done].
    case_decide; simpl; [done|]. by apply consistent_save_customers.
  - unfold display_customers. by rewrite load_data_eq.
  - rewrite call_modify_customer_unfold. case_decide; simpl; [done|].
    rewrite modify_customer_unfold, (sound_loaded _ _ Hs).
    destruct (modify_first _ _ _ _) as [[cs'|]|]; simpl; try done.
    by apply consistent_save_customers.
  - rewrite create_reservation_unfold, !(sound_loaded _ _ Hs).
    destruct (any_eq _ _ (stored reservations_file w)) as [[]|]; simpl; try done.
    destruct (any_eq _ _ (stored customers_file w)) as [[]|]; simpl; try done.
    destruct (book_room _ _) as [[| |hs']|] eqn:Hb; simpl; try done.
    apply consistent_save_both; [done|]. by eapply accounted_book.
  - rewrite cancel_reservation_unfold, !(sound_loaded _ _ Hs).
    destruct (find_first _ _ _) as [[x|]|] eqn:Hf; simpl; try done.
    destruct (release_rooms _ _) as [hs'|] eqn:Hrel; simpl; [|done].
    destruct (py_remove _ _) as [rs'|] eqn:Hrm; simpl; [|done].
    apply consistent_save_both; [done|]. by eapply accounted_cancel.
  - unfold display_reservations. by rewrite load_data_eq.
Qed.

Lemma restrained_consistent w : reachable_restrained w → consistent w.
Proof.
  induction 1 as [|w c _ IH Hc]; [apply consistent_empty|by apply consistent_step].
Qed.

(** C1, as amended: in every state reachable from the empty store by calls
    that create hotels with a non-negative [total_rooms], that keep
    [hotel_id], [total_rooms] and [available_rooms] out of [modify_hotel], and
    that delete a hotel only when no reservation on file names it, every hotel
    record has [0 <= available_rooms <= total_rooms]. *)
Theorem rooms_stay_in_range (w : world) :
  reachable_restrained w →
  Forall (λ h : record, rooms_in_range h = true) (stored hotels_file w).
Proof.
  intros Hw. destruct (restrained_consistent w Hw) as [_ (Hh & _ & _)].
  eapply Forall_impl; [exact Hh|]. intros h. apply hotel_ok_rooms.
Qed.

Lemma rooms_stay_in_range_witness :
  Forall (λ h : record, rooms_in_range h = true) (stored hotels_file booked_store).
Proof.
  apply rooms_stay_in_range. unfold booked_store, customer_store, hotel_store.
  repeat (apply restrained_step; [|vm_compute; reflexivity]).
  apply restrained_empty.
Defined.

(** C1, as stated, fails: [create_hotel(1, "Test", "NY", -1)] on the empty
    store is accepted and stores a hotel with [available_rooms = -1]. *)
Lemma negative_rooms_reachable :
  reachable overdrawn_store
  ∧ ¬ Forall (λ h : record, rooms_in_range h = true) (stored hotels_file overdrawn_store).
Proof.
  split; [apply reachable_step, reachable_empty|].
  apply (bool_decide_unpack _). vm_compute. exact I.
Qed.

(** * Further properties of the code *)

(** ** The record store *)

(** [load_data] only reads: whatever it returns or raises, the world is as
    before.  A missing file, a file that cannot be read and a file whose text
    is not JSON load as the empty list; a file holding a JSON list loads as
    that list. *)
Theorem load_data_tolerant (f : string) (w : world) :
  (load_data f w).2 = w
  ∧ (files w !! f = None ∨ files w !! f = Some Unreadable ∨ files w !! f = Some Malformed →
     load_data f w = (Ok [], w))
  ∧ (∀ d, files w !! f = Some (Json d) → load_data f w = (Ok d, w)).
Proof.
  rewrite load_data_eq, loaded_cases. split; [done|]. split.
  - by intros [->|[->| ->]].
  - by intros d ->.
Qed.

Lemma load_data_tolerant_witness :
  load_data hotels_file damaged_store = (Ok [], damaged_store)
  ∧ load_data customers_file damaged_store = (Ok [], damaged_store)
  ∧ load_data reservations_file damaged_store = (Ok [], damaged_store).
Proof.
  split; [|split].
  - apply (proj1 (proj2 (load_data_tolerant hotels_file damaged_store))). right. left. evaluate.
  - apply (proj1 (proj2 (load_data_tolerant customers_file damaged_store))). right. right. evaluate.
  - apply (proj1 (proj2 (load_data_tolerant reservations_file damaged_store))). left. evaluate.
Defined.

(** What is saved to a path that can be written and read is what the next
    load returns, whatever the file held before (nothing, bytes that are not
    UTF-8, text that is not JSON, another list); a second save replaces the
    first; the other files load as before.  A file that cannot be read is left
    out: the code can write to a write-only file and still not read it back. *)
Theorem save_then_load (f : string) (d : list record) (w : world) :
  f ∉ readonly w →
  files w !! f ≠ Some Unreadable →
  load_data f (save_data f d w).2 = (Ok d, (save_data f d w).2)
  ∧ (∀ d', load_data f (save_data f d' (save_data f d w).2).2
           = (Ok d', (save_data f d' (save_data f d w).2).2))
  ∧ (∀ g, g ≠ f → (load_data g (save_data f d w).2).1 = (load_data g w).1).
Proof.
  intros Hw _. fold (store f d w). split; [|split].
  - rewrite load_data_eq. by rewrite loaded_store_eq.
  - intros d'. fold (store f d' (store f d w)). rewrite load_data_eq.
    rewrite loaded_store_eq; [done|]. by rewrite store_readonly.
  - intros g Hne. rewrite !load_data_eq. simpl. by apply loaded_store_ne.
Qed.

Lemma save_then_load_witness :
  let d := [Customer.to_dict (Customer.init 1 "John" "john@mail.com" "123")] in
  load_data customers_file (save_data customers_file d damaged_store).2
  = (Ok d, (save_data customers_file d damaged_store).2).
Proof.
  intros d.
  apply (proj1 (save_then_load customers_file d damaged_store
                  ltac:(evaluate) ltac:(evaluate))).
Defined.

(** A save that cannot open its file is swallowed: [save_data] returns
    normally and no file changes.  So [create_hotel] with a fresh id on a
    hotels path that cannot be written returns [True] although the hotel is
    stored nowhere: the collection loads as before. *)
Theorem unwritable_save_is_silent (w : world) (id : Z) (n l : string) (t : Z)
    (hs : list record) :
  hotels_file ∈ readonly w →
  loaded hotels_file w = Ok hs → keyed "hotel_id" hs →
  ¬ Exists (has_id "hotel_id" id) hs →
  (∀ d, (save_data hotels_file d w).1 = Ok ()
        ∧ files (save_data hotels_file d w).2 = files w)
  ∧ (create_hotel id n l t w).1 = Ok true
  ∧ files (create_hotel id n l t w).2 = files w
  ∧ loaded hotels_file (create_hotel id n l t w).2 = Ok hs.
Proof.
  intros Hro Hl Hk Hfresh.
  assert (∀ d, files (store hotels_file d w) = files w) as Hsame.
  { intros d. rewrite store_files. by rewrite decide_True. }
  split; [|split; [|split]].
  - intros d. rewrite save_data_eq. simpl. by rewrite Hsame.
  - rewrite create_hotel_unfold, Hl, any_eq_decide by done.
    by rewrite bool_decide_eq_false_2.
  - rewrite create_hotel_unfold, Hl, any_eq_decide by done.
    rewrite bool_decide_eq_false_2 by done. simpl. apply Hsame.
  - rewrite create_hotel_unfold, Hl, any_eq_decide by done.
    rewrite bool_decide_eq_false_2 by done. simpl.
    by rewrite loaded_store_readonly.
Qed.

Lemma unwritable_save_is_silent_witness :
  (create_hotel 1 "Test" "NY" 10 locked_store).1 = Ok true
  ∧ loaded hotels_file (create_hotel 1 "Test" "NY" 10 locked_store).2 = Ok [].
Proof.
  destruct (unwritable_save_is_silent locked_store 1 "Test" "NY" 10
              (stored hotels_file locked_store)) as (_ & Hret & _ & Hload);
    [evaluate..|].
  by split.
Defined.

(** ** Creating, deleting and refusing *)

(** [create_customer] with an id that no customer on file has returns [True]
    and saves the customers with one record appended, holding the four
    values it was given. *)
Theorem create_customer_fresh (w : world) (id : Z) (n e p : string)
    (cs : list record) :
  loaded customers_file w = Ok cs → keyed "customer_id" cs →
  ¬ Exists (has_id "customer_id" id) cs →
  let c := Customer.to_dict (Customer.init id n e p) in
  create_customer id n e p w = (Ok true, store customers_file (cs ++ [c]) w)
  ∧ c !! "customer_id" = Some (VInt id)
  ∧ c !! "name" = Some (VStr n)
  ∧ c !! "email" = Some (VStr e)
  ∧ c !! "phone" = Some (VStr p)
  ∧ (customers_file ∉ readonly w →
     loaded customers_file (store customers_file (cs ++ [c]) w) = Ok (cs ++ [c])).
Proof.
  intros Hl Hk Hfresh c. split; [|repeat split].
  - rewrite create_customer_unfold, Hl, any_eq_decide by done.
    by rewrite bool_decide_eq_false_2.
  - intros Hw. by apply loaded_store_eq.
Qed.

Lemma create_customer_fresh_witness :
  create_customer 2 "Ann" "ann@mail.com" "555" booked_store
  = (Ok true,
     store customers_file
       (stored customers_file booked_store
        ++ [Customer.to_dict (Customer.init 2 "Ann" "ann@mail.com" "555")])
       booked_store).
Proof.
  apply (create_customer_fresh booked_store 2 "Ann" "ann@mail.com" "555"
           (stored customers_file booked_store)); evaluate.
Defined.

(** Deleting an id that is on file returns [True] and saves the collection
    without any record of that id (all of them go, were the id on file more
    than once); the records of other ids stay, in their order. *)
Theorem delete_removes (w : world) (id : Z) :
  (∀ hs, loaded hotels_file w = Ok hs → keyed "hotel_id" hs →
         Exists (has_id "hotel_id" id) hs →
         let hs' := filter (λ h : record, h !! "hotel_id" ≠ Some (VInt id)) hs in
         delete_hotel id w = (Ok true, store hotels_file hs' w)
         ∧ ¬ Exists (has_id "hotel_id" id) hs'
         ∧ (length hs' < length hs)%nat
         ∧ sublist hs' hs)
  ∧ (∀ cs, loaded customers_file w = Ok cs → keyed "customer_id" cs →
           Exists (has_id "customer_id" id) cs →
           let cs' := filter (λ c : record, c !! "customer_id" ≠ Some (VInt id)) cs in
           delete_customer id w = (Ok true, store customers_file cs' w)
           ∧ ¬ Exists (has_id "customer_id" id) cs'
           ∧ (length cs' < length cs)%nat
           ∧ sublist cs' cs).
Proof.
  assert (∀ key (l : list record),
            Exists (has_id key id) l →
            let l' := filter (λ r : record, r !! key ≠ Some (VInt id)) l in
            ¬ Exists (has_id key id) l' ∧ (length l' < length l)%nat ∧ sublist l' l)
    as Hfilter.
  { intros key l Hex l'. split; [|split].
    - intros Hex'. apply Exists_exists in Hex' as (r & Hin & Hr).
      apply list_elem_of_filter in Hin as [Hne _]. by apply Hne.
    - apply Exists_exists in Hex as (r & Hin & Hr).
      apply (length_filter_lt _ _ r); [done|]. intros Hne. by apply Hne.
    - apply sublist_filter. }
  split.
  - intros hs Hl Hk Hex. pose proof (Hfilter "hotel_id" hs Hex) as H.
    cbv zeta in *. destruct H as (H1 & H2 & H3).
    split; [|done]. rewrite delete_hotel_unfold, Hl, without_filter by done.
    rewrite decide_False; [done|]. apply Nat.lt_neq, H2.
  - intros cs Hl Hk Hex. pose proof (Hfilter "customer_id" cs Hex) as H.
    cbv zeta in *. destruct H as (H1 & H2 & H3).
    split; [|done]. rewrite delete_customer_unfold, Hl, without_filter by done.
    rewrite decide_False; [done|]. apply Nat.lt_neq, H2.
Qed.

Lemma delete_removes_witness :
  delete_hotel 1 booked_store
  = (Ok true,
     store hotels_file
       (filter (λ h : record, h !! "hotel_id" ≠ Some (VInt 1))
               (stored hotels_file booked_store)) booked_store)
  ∧ delete_customer 1 booked_store
    = (Ok true,
       store customers_file
         (filter (λ c : record, c !! "customer_id" ≠ Some (VInt 1))
                 (stored customers_file booked_store)) booked_store).
Proof.
  destruct (delete_removes booked_store 1) as [Hh Hc]. split.
  - apply (Hh (stored hotels_file booked_store)); evaluate.
  - apply (Hc (stored customers_file booked_store)); evaluate.
Defined.

(** A reservation against a hotel that has no room left is refused: with a
    fresh reservation id and a customer on file, [create_reservation] returns
    [False] when the hotel's [available_rooms] is zero or negative, and the
    world is untouched. *)
Theorem create_reservation_full (w : world) (now : string) (rid cid hid : Z)
    (rs hs cs : list record) (h : record) (a : Z) :
  loaded reservations_file w = Ok rs →
  loaded hotels_file w = Ok hs →
  loaded customers_file w = Ok cs →
  keyed "reservation_id" rs → ¬ Exists (has_id "reservation_id" rid) rs →
  keyed "customer_id" cs → Exists (has_id "customer_id" cid) cs →
  keyed "hotel_id" hs → NoDup (ids "hotel_id" hs) →
  h ∈ hs → has_id "hotel_id" hid h → h !! "available_rooms" = Some (VInt a) → a ≤ 0 →
  create_reservation now rid cid hid w = (Ok false, w).
Proof.
  intros Hr Hh Hc Hkr Hfresh Hkc Hcust Hkh Hnd Hin Hid Ha Hle.
  destruct (first_match "hotel_id" (VInt hid) hs Hkh) as (pre & h0 & post & E & Hpre & Hh0).
  { apply Exists_exists. eauto. }
  assert (h = h0) as <-.
  { eapply unique_first; [done..|]. unfold has_id in Hid. congruence. }
  rewrite create_reservation_unfold, Hr, Hh, Hc.
  rewrite any_eq_decide by done. rewrite bool_decide_eq_false_2 by done.
  rewrite any_eq_decide by done. rewrite bool_decide_eq_true_2 by done.
  rewrite E, (book_room_at hid pre h post a) by done.
  by replace (a <=? 0) with true by lia.
Qed.

Lemma create_reservation_full_witness :
  create_reservation "2026-01-02 08:00:00" 2 1 1 booked_store = (Ok false, booked_store).
Proof.
  apply (create_reservation_full booked_store _ 2 1 1
           (stored reservations_file booked_store) (stored hotels_file booked_store)
           (stored customers_file booked_store)
           (<["available_rooms" := VInt 0]> (Hotel.to_dict (Hotel.init 1 "Test" "NY" 1))) 0);
    evaluate.
Defined.

(** ** What a call writes *)

(** Destructs the loads and loops of an unfolded operation. *)
Ltac split_cases :=
  repeat match goal with
  | |- context [match ?x with _ => _ end] => destruct x eqn:?; simpl
  | H : context [match ?x with _ => _ end] |- _ => destruct x eqn:?; simpl in H
  end.

(** An operation that declines has written nothing: when it returns [False],
    or raises [KeyError] on a record without the field a scan reads, or raises
    [UnicodeDecodeError] on a file that is not UTF-8 text, no save was made
    and the world is as before.  The [display_*] operations never write. *)
Theorem refusals_save_nothing (w : world) :
  (∀ i n l t, refused (create_hotel i n l t w).1 → (create_hotel i n l t w).2 = w)
  ∧ (∀ i, refused (delete_hotel i w).1 → (delete_hotel i w).2 = w)
  ∧ (∀ i kw, refused (modify_hotel i kw w).1 → (modify_hotel i kw w).2 = w)
  ∧ (∀ i n e p, refused (create_customer i n e p w).1 → (create_customer i n e p w).2 = w)
  ∧ (∀ i, refused (delete_customer i w).1 → (delete_customer i w).2 = w)
  ∧ (∀ i kw, refused (modify_customer i kw w).1 → (modify_customer i kw w).2 = w)
  ∧ (∀ now r c h, refused (create_reservation now r c h w).1 →
                  (create_reservation now r c h w).2 = w)
  ∧ (∀ r, refused (cancel_reservation r w).1 → (cancel_reservation r w).2 = w)
  ∧ (display_hotels w).2 = w
  ∧ (display_customers w).2 = w
  ∧ (display_reservations w).2 = w.
Proof.
  repeat apply conj.
  - intros i n l t. rewrite create_hotel_unfold. split_cases; done.
  - intros i. rewrite delete_hotel_unfold. split_cases; done.
  - intros i kw. rewrite modify_hotel_unfold. split_cases; done.
  - intros i n e p. rewrite create_customer_unfold. split_cases; done.
  - intros i. rewrite delete_customer_unfold. split_cases; done.
  - intros i kw. rewrite modify_customer_unfold. split_cases; done.
  - intros now r c h. rewrite create_reservation_unfold. split_cases; done.
  - intros r. rewrite cancel_reservation_unfold. split_cases; done.
  - unfold display_hotels. by rewrite load_data_eq.
  - unfold display_customers. by rewrite load_data_eq.
  - unfold display_reservations. by rewrite load_data_eq.
Qed.

Lemma refusals_save_nothing_witness :
  (create_reservation "2026-01-01 12:00:00" 1 99 99 empty_store).2 = empty_store
  ∧ (create_hotel 1 "Test" "NY" 10 undecodable_store).2 = undecodable_store
  ∧ (delete_hotel 1 keyless_store).2 = keyless_store.
Proof.
  destruct (refusals_save_nothing empty_store)
    as (_ & _ & _ & _ & _ & _ & Hres & _).
  destruct (refusals_save_nothing undecodable_store) as (Hhot & _).
  destruct (refusals_save_nothing keyless_store) as (_ & Hdel & _).
  split; [|split].
  - apply Hres. evaluate.
  - apply Hhot. evaluate.
  - apply Hdel. evaluate.
Defined.

Lemma replay_readonly ws w : readonly (replay ws w) = readonly w.
Proof.
  revert w. induction ws as [|s ws IH]; intros w; [done|].
  simpl. by rewrite IH, store_readonly.
Qed.

Lemma replay_files_other ws w g :
  g ∉ ws.*1 → files (replay ws w) !! g = files w !! g.
Proof.
  revert w. induction ws as [|s ws IH]; intros w Hg; [done|].
  simpl in *. apply not_elem_of_cons in Hg as [Hne Hg]. rewrite IH by done.
  rewrite store_files. case_decide; [done|]. by rewrite lookup_insert_ne.
Qed.

Lemma replay_files_kept ws w g :
  is_Some (files w !! g) → is_Some (files (replay ws w) !! g).
Proof.
  revert w. induction ws as [|s ws IH]; intros w Hg; [done|].
  simpl. apply IH. rewrite store_files. case_decide; [done|].
  destruct (decide (s.1 = g)) as [->|Hne].
  - rewrite lookup_insert_eq. eauto.
  - by rewrite lookup_insert_ne.
Qed.

(** Every call is a sequence of at most two saves, to files of its own. *)
Lemma perform_replay c w :
  ∃ ws, perform c w = replay ws w ∧ Forall (λ s, s.1 ∈ touches c) ws.
Proof.
  destruct c as [i n l t|i| |i kw|i n e p|i| |i kw|now r c h|r|]; simpl.
  - rewrite create_hotel_unfold. split_cases;
      try (by exists []); eexists [(_, _)]; (split; [done|]);
      repeat constructor.
  - rewrite delete_hotel_unfold. split_cases;
      try (by exists []); eexists [(_, _)]; (split; [done|]);
      repeat constructor.
  - unfold display_hotels. rewrite load_data_eq. by exists [].
  - rewrite call_modify_hotel_unfold. case_decide; [by exists []|].
    rewrite modify_hotel_unfold. split_cases;
      try (by exists []); eexists [(_, _)]; (split; [done|]);
      repeat constructor.
  - rewrite create_customer_unfold. split_cases;
      try (by exists []); eexists [(_, _)]; (split; [done|]);
      repeat constructor.
  - rewrite delete_customer_unfold. split_cases;
      try (by exists []); eexists [(_, _)]; (split; [done|]);
      repeat constructor.
  - unfold display_customers. rewrite load_data_eq. by exists [].
  - rewrite call_modify_customer_unfold. case_decide; [by exists []|].
    rewrite modify_customer_unfold. split_cases;
      try (by exists []); eexists [(_, _)]; (split; [done|]);
      repeat constructor.
  - rewrite create_reservation_unfold. split_cases;
      try (by exists []); eexists [(_, _); (_, _)]; (split; [done|]);
      repeat constructor; set_solver.
  - rewrite cancel_reservation_unfold. split_cases;
      try (by exists []); eexists [(_, _); (_, _)]; (split; [done|]);
      repeat constructor; set_solver.
  - unfold display_reservations. rewrite load_data_eq. by exists [].
Qed.

(** A call changes no file but its own: the hotel operations leave the
    customers and reservations files as they are, the customer operations
    leave the hotels and reservations files, the reservation operations leave
    the customers file, and [display_*] leaves all three.  No call removes a
    file or changes which paths can be written. *)
Theorem calls_keep_other_files (c : call) (w : world) (g : string) :
  (g ∉ touches c → files (perform c w) !! g = files w !! g)
  ∧ (is_Some (files w !! g) → is_Some (files (perform c w) !! g))
  ∧ readonly (perform c w) = readonly w.
Proof.
  destruct (perform_replay c w) as (ws & -> & Hws). split; [|split].
  - intros Hg. apply replay_files_other. intros Hin.
    apply list_elem_of_fmap in Hin as (s & -> & Hs).
    rewrite Forall_forall in Hws. by apply Hg, Hws.
  - apply replay_files_kept.
  - apply replay_readonly.
Qed.

Lemma calls_keep_other_files_witness :
  files (perform (CancelReservation 1) booked_store) !! customers_file
  = files booked_store !! customers_file
  ∧ files (perform (DeleteHotel 1) booked_store) !! reservations_file
    = files booked_store !! reservations_file.
Proof.
  destruct (calls_keep_other_files (CancelReservation 1) booked_store customers_file)
    as (Hcancel & _).
  destruct (calls_keep_other_files (DeleteHotel 1) booked_store reservations_file)
    as (Hdelete & _).
  split.
  - apply Hcancel. evaluate.
  - apply Hdelete. evaluate.
Defined.

(** ** Round trips *)








(** ** Updates keep the shape of the collection *)

Lemma update_fields_dom kwargs (d : record) :
  dom (update_fields kwargs d) =@{gset string} dom d.
Proof.
  apply set_eq. intros k. rewrite !elem_of_dom. apply update_fields_is_Some.
Qed.

Lemma same_fields_refl (l : list record) :
  Forall2 (λ r r' : record, dom r' =@{gset string} dom r) l l.
Proof. induction l; by constructor. Qed.

Lemma modify_first_shape key x kwargs l l' :
  modify_first key x kwargs l = Ok (Some l') →
  Forall2 (λ r r' : record, dom r' =@{gset string} dom r) l l'.
Proof.
  intros H. apply modify_first_some in H as (pre & r & post & -> & _ & _ & ->).
  apply Forall2_app; [apply same_fields_refl|].
  constructor; [apply update_fields_dom|apply same_fields_refl].
Qed.

(** Whatever the proposed updates, and whatever [modify_hotel] or
    [modify_customer] returns, the collection afterwards has the same number
    of records, each with exactly the fields it had: a modification never
    adds or drops a field or a record. *)
Theorem modify_keeps_shape (w : world) (id : Z) (kwargs : list (string * value)) :
  (∀ hs, loaded hotels_file w = Ok hs →
         ∃ hs', loaded hotels_file (modify_hotel id kwargs w).2 = Ok hs'
                ∧ Forall2 (λ r r' : record, dom r' =@{gset string} dom r) hs hs')
  ∧ (∀ cs, loaded customers_file w = Ok cs →
           ∃ cs', loaded customers_file (modify_customer id kwargs w).2 = Ok cs'
                  ∧ Forall2 (λ r r' : record, dom r' =@{gset string} dom r) cs cs').
Proof.
  assert (∀ f l l', loaded f w = Ok l →
            Forall2 (λ r r' : record, dom r' =@{gset string} dom r) l l' →
            ∃ l'', loaded f (store f l' w) = Ok l''
                   ∧ Forall2 (λ r r' : record, dom r' =@{gset string} dom r) l l'')
    as Hstore.
  { intros f l l' Hl HF. destruct (decide (f ∈ readonly w)).
    - exists l. rewrite loaded_store_readonly by done. split; [done|].
      apply same_fields_refl.
    - exists l'. by rewrite loaded_store_eq. }
  split.
  - intros hs Hl. rewrite modify_hotel_unfold, Hl.
    destruct (modify_first _ _ _ hs) as [[hs'|]|] eqn:Hm; simpl;
      [|exists hs; split; [done|apply same_fields_refl]..].
    apply Hstore; [done|]. by eapply modify_first_shape.
  - intros cs Hl. rewrite modify_customer_unfold, Hl.
    destruct (modify_first _ _ _ cs) as [[cs'|]|] eqn:Hm; simpl;
      [|exists cs; split; [done|apply same_fields_refl]..].
    apply Hstore; [done|]. by eapply modify_first_shape.
Qed.

Lemma modify_keeps_shape_witness :
  ∃ cs', loaded customers_file
           (modify_customer 1 [("name", VStr "Jane"); ("age", VInt 30)] booked_store).2
         = Ok cs'
         ∧ Forall2 (λ r r' : record, dom r' =@{gset string} dom r)
                   (stored customers_file booked_store) cs'.
Proof.
  destruct (modify_keeps_shape booked_store 1 [("name", VStr "Jane"); ("age", VInt 30)])
    as [_ Hc].
  apply Hc. evaluate.
Defined.

(** ** Records that do not fit the data model *)

Lemma any_eq_keyless key x pre (r : record) post :
  Forall (other_id key x) pre → r !! key = None →
  any_eq key x (pre ++ r :: post) = Raise (KeyError key).
Proof.
  intros Hpre Hr. induction Hpre as [|r' pre (v & Hv & Hne) _ IH]; simpl; step_result.
  - by rewrite Hr.
  - rewrite Hv. by rewrite bool_decide_eq_false_2.
Qed.

Lemma modify_first_keyless key x kwargs pre (r : record) post :
  Forall (other_id key x) pre → r !! key = None →
  modify_first key x kwargs (pre ++ r :: post) = Raise (KeyError key).
Proof.
  intros Hpre Hr. induction Hpre as [|r' pre (v & Hv & Hne) _ IH]; simpl; step_result.
  - by rewrite Hr.
  - rewrite Hv. rewrite bool_decide_eq_false_2 by done. by rewrite IH.
Qed.

Lemma without_keyless key x l (r : record) l' :
  r !! key = None → without key x (l ++ r :: l') = Raise (KeyError key).
Proof.
  intros Hr. induction l as [|r' l IH]; simpl; step_result.
  - by rewrite Hr.
  - destruct (r' !! key); [|done]. by rewrite IH.
Qed.

(** A hotel record without a [hotel_id] makes the scans fail with [KeyError]:
    [create_hotel] and [modify_hotel] raise it when they reach the record
    before a record of the wanted id, and [delete_hotel], which looks at every
    record, raises it wherever the record is.  Nothing is saved.  Behind a
    record of the wanted id the defect goes unnoticed by [create_hotel], which
    answers [False]. *)
Theorem keyless_hotel_raises (w : world) (id : Z) (pre post : list record) (r : record) :
  loaded hotels_file w = Ok (pre ++ r :: post) →
  r !! "hotel_id" = None →
  (∀ n l t kwargs,
      Forall (other_id "hotel_id" (VInt id)) pre →
      create_hotel id n l t w = (Raise (KeyError "hotel_id"), w)
      ∧ modify_hotel id kwargs w = (Raise (KeyError "hotel_id"), w))
  ∧ delete_hotel id w = (Raise (KeyError "hotel_id"), w)
  ∧ (∀ n l t, keyed "hotel_id" pre → Exists (has_id "hotel_id" id) pre →
              create_hotel id n l t w = (Ok false, w)).
Proof.
  intros Hl Hr. split; [|split].
  - intros n l t kwargs Hpre. split.
    + rewrite create_hotel_unfold, Hl. by rewrite any_eq_keyless.
    + rewrite modify_hotel_unfold, Hl. by rewrite modify_first_keyless.
  - rewrite delete_hotel_unfold, Hl. by rewrite without_keyless.
  - intros n l t Hk Hex.
    destruct (first_match "hotel_id" (VInt id) pre Hk Hex) as (p & h & q & -> & Hp & Hh).
    rewrite create_hotel_unfold, Hl, <- app_assoc. simpl.
    by rewrite (any_eq_true "hotel_id" (VInt id) p h).
Qed.

Lemma keyless_hotel_raises_witness :
  create_hotel 1 "Test" "NY" 1 keyless_store = (Raise (KeyError "hotel_id"), keyless_store)
  ∧ delete_hotel 1 keyless_store = (Raise (KeyError "hotel_id"), keyless_store).
Proof.
  destruct (keyless_hotel_raises keyless_store 1 []
              [] (delete "hotel_id" (Hotel.to_dict (Hotel.init 1 "Test" "NY" 1))))
    as (Hscan & Hdel & _); [evaluate..|].
  split; [|done]. apply (Hscan "Test" "NY" 1 []). constructor.
Defined.

(** A hotel whose [available_rooms] is not an integer (a string or [null],
    as [modify_hotel] can leave it) cannot be booked: [create_reservation]
    raises [TypeError] on the comparison with zero, and a hotel record without
    the field raises [KeyError]; in both cases nothing is saved. *)
Theorem odd_counter_raises (w : world) (now : string) (rid cid hid : Z)
    (rs hs cs : list record) (h : record) :
  loaded reservations_file w = Ok rs →
  loaded hotels_file w = Ok hs →
  loaded customers_file w = Ok cs →
  keyed "reservation_id" rs → ¬ Exists (has_id "reservation_id" rid) rs →
  keyed "customer_id" cs → Exists (has_id "customer_id" cid) cs →
  keyed "hotel_id" hs → NoDup (ids "hotel_id" hs) →
  h ∈ hs → has_id "hotel_id" hid h →
  (∀ v, h !! "available_rooms" = Some v → ¬ is_int (Some v) →
        create_reservation now rid cid hid w = (Raise TypeError, w))
  ∧ (h !! "available_rooms" = None →
     create_reservation now rid cid hid w = (Raise (KeyError "available_rooms"), w)).
Proof.
  intros Hr Hh Hc Hkr Hfresh Hkc Hcust Hkh Hnd Hin Hid.
  destruct (first_match "hotel_id" (VInt hid) hs Hkh) as (pre & h0 & post & E & Hpre & Hh0).
  { apply Exists_exists. eauto. }
  assert (h = h0) as <-.
  { eapply unique_first; [done..|]. unfold has_id in Hid. congruence. }
  assert (∀ e, (∀ l, book_room hid (h :: l) = Raise e) →
               create_reservation now rid cid hid w = (Raise e, w)) as Hrun.
  { intros e He. rewrite create_reservation_unfold, Hr, Hh, Hc.
    rewrite any_eq_decide by done. rewrite bool_decide_eq_false_2 by done.
    rewrite any_eq_decide by done. rewrite bool_decide_eq_true_2 by done.
    subst hs. clear -Hpre He.
    assert (book_room hid (pre ++ h :: post) = Raise e) as ->; [|done].
    induction Hpre as [|r pre (v & Hv & Hne) _ IH]; [apply He|].
    simpl. step_result. rewrite Hv. rewrite bool_decide_eq_false_2 by done.
    by rewrite IH. }
  split.
  - intros v Hv Hnot. apply Hrun. intros l. simpl. step_result.
    rewrite Hh0. rewrite bool_decide_eq_true_2 by done. rewrite Hv. simpl.
    by destruct v.
  - intros Hnone. apply Hrun. intros l. simpl. step_result.
    rewrite Hh0. rewrite bool_decide_eq_true_2 by done. by rewrite Hnone.
Qed.

Lemma odd_counter_raises_witness :
  create_reservation "2026-01-01 12:00:00" 1 1 1 stringly_store
  = (Raise TypeError, stringly_store).
Proof.
  destruct (odd_counter_raises stringly_store "2026-01-01 12:00:00" 1 1 1
              (stored reservations_file stringly_store)
              (stored hotels_file stringly_store) (stored customers_file stringly_store)
              (<["available_rooms" := VStr "many"]>
                 (Hotel.to_dict (Hotel.init 1 "Test" "NY" 1))))
    as [Htype _]; [evaluate..|].
  apply (Htype (VStr "many")); evaluate.
Defined.

(** ** Identity keys stay unique *)

Lemma ids_grow_refl l : ids_grow l l.
Proof. by left. Qed.

Lemma good_ids_grow before after :
  good_ids before → ids_grow before after → good_ids after.
Proof.
  intros [Hnd Hall] [Hsub|(x & -> & Hx)]; split.
  - by eapply sublist_NoDup.
  - clear Hnd. induction Hsub as [|y l1 l2 _ IH|y l1 l2 _ IH]; [done|..].
    + apply Forall_cons in Hall as [Hy Hall]. constructor; auto.
    + apply Forall_cons in Hall as [_ Hall]. auto.
  - apply NoDup_app. split; [done|]. split; [|apply NoDup_singleton].
    intros y Hy Hy'. apply list_elem_of_singleton in Hy'. by subst.
  - apply Forall_app. split; [done|]. constructor; [by eexists|constructor].
Qed.

Lemma fresh_id key x (l : list record) :
  any_eq key x l = Ok false → Some x ∉ ids key l.
Proof.
  intros H Hin. apply any_eq_false in H. rewrite Forall_forall in H.
  apply list_elem_of_fmap in Hin as (r & Hr & Hin).
  by apply (other_id_not _ _ _ (H _ Hin)).
Qed.

Lemma grow_after_store f d w g key :
  (g = f → ids_grow (ids key (stored f w)) (ids key d)) →
  ids_grow (ids key (stored g w)) (ids key (stored g (store f d w))).
Proof.
  intros H. rewrite stored_store. case_decide as E; [|apply ids_grow_refl].
  destruct E as [-> _]. by apply H.
Qed.

Lemma grow_after_stores f1 f2 d1 d2 w g key :
  f1 ≠ f2 →
  (g = f1 → ids_grow (ids key (stored f1 w)) (ids key d1)) →
  (g = f2 → ids_grow (ids key (stored f2 w)) (ids key d2)) →
  ids_grow (ids key (stored g w))
           (ids key (stored g (store f2 d2 (store f1 d1 w)))).
Proof.
  intros Hne H1 H2. rewrite stored_store. case_decide as E.
  - destruct E as [-> _]. by apply H2.
  - by apply grow_after_store.
Qed.

Ltac untouched := each_collection; apply ids_grow_refl.

Lemma ids_grow_step (c : call) (w : world) :
  names_identity c = false →
  Forall (λ fk : string * string,
            ids_grow (ids fk.2 (stored fk.1 w)) (ids fk.2 (stored fk.1 (perform c w))))
         collections.
Proof.
  intros Hc. destruct c as [i n l t|i| |i kw|i n e p|i| |i kw|now r c h|r|]; simpl.
  - rewrite create_hotel_unfold.
    destruct (loaded hotels_file w) as [hs|] eqn:Hl; simpl; [|untouched].
    destruct (any_eq _ _ hs) as [[]|] eqn:Hany; simpl; [untouched| |untouched].
    each_collection; apply grow_after_store; intros E; try discriminate E.
    rewrite (loaded_Ok_stored _ _ _ Hl), ids_app. right.
    exists (VInt i). split; [done|]. by apply fresh_id.
  - rewrite delete_hotel_unfold.
    destruct (loaded hotels_file w) as [hs|] eqn:Hl; simpl; [|untouched].
    destruct (without _ _ hs) as [hs'|] eqn:Hw; simpl; [|untouched].
    case_decide; simpl; [untouched|].
    each_collection; apply grow_after_store; intros E; try discriminate E.
    rewrite (loaded_Ok_stored _ _ _ Hl), (without_inv _ _ _ _ Hw).
    left. apply ids_filter_sublist.
  - unfold display_hotels. rewrite load_data_eq. untouched.
  - rewrite call_modify_hotel_unfold. case_decide; simpl; [untouched|].
    rewrite modify_hotel_unfold.
    destruct (loaded hotels_file w) as [hs|] eqn:Hl; simpl; [|untouched].
    destruct (modify_first _ _ _ hs) as [[hs'|]|] eqn:Hm; simpl; [|untouched..].
    each_collection; apply grow_after_store; intros E; try discriminate E.
    rewrite (loaded_Ok_stored _ _ _ Hl).
    rewrite (modified_ids _ _ _ _ _ (avoids_key _ _ Hc) Hm). apply ids_grow_refl.
  - rewrite create_customer_unfold.
    destruct (loaded customers_file w) as [cs|] eqn:Hl; simpl; [|untouched].
    destruct (any_eq _ _ cs) as [[]|] eqn:Hany; simpl; [untouched| |untouched].
    each_collection; apply grow_after_store; intros E; try discriminate E.
    rewrite (loaded_Ok_stored _ _ _ Hl), ids_app. right.
    exists (VInt i). split; [done|]. by apply fresh_id.
  - rewrite delete_customer_unfold.
    destruct (loaded customers_file w) as [cs|] eqn:Hl; simpl; [|untouched].
    destruct (without _ _ cs) as [cs'|] eqn:Hw; simpl; [|untouched].
    case_decide; simpl; [untouched|].
    each_collection; apply grow_after_store; intros E; try discriminate E.
    rewrite (loaded_Ok_stored _ _ _ Hl), (without_inv _ _ _ _ Hw).
    left. apply ids_filter_sublist.
  - unfold display_customers. rewrite load_data_eq. untouched.
  - rewrite call_modify_customer_unfold. case_decide; simpl; [untouched|].
    rewrite modify_customer_unfold.
    destruct (loaded customers_file w) as [cs|] eqn:Hl; simpl; [|untouched].
    destruct (modify_first _ _ _ cs) as [[cs'|]|] eqn:Hm; simpl; [|untouched..].
    each_collection; apply grow_after_store; intros E; try discriminate E.
    rewrite (loaded_Ok_stored _ _ _ Hl).
    rewrite (modified_ids _ _ _ _ _ (avoids_key _ _ Hc) Hm). apply ids_grow_refl.
  - rewrite create_reservation_unfold.
    destruct (loaded reservations_file w) as [rs|] eqn:Hr; simpl; [|untouched].
    destruct (loaded hotels_file w) as [hs|] eqn:Hh; simpl; [|untouched].
    destruct (loaded customers_file w) as [cs|] eqn:Hcs; simpl; [|untouched].
    destruct (any_eq _ _ rs) as [[]|] eqn:Hany; simpl; [untouched| |untouched].
    destruct (any_eq _ _ cs) as [[]|]; simpl; [|untouched..].
    destruct (book_room h hs) as [[| |hs']|] eqn:Hb; simpl;
      [untouched..| |untouched].
    each_collection; apply grow_after_stores; try done; intros E; try discriminate E.
    + rewrite (loaded_Ok_stored _ _ _ Hh), (booked_ids _ _ _ Hb). apply ids_grow_refl.
    + rewrite (loaded_Ok_stored _ _ _ Hr), ids_app. right.
      exists (VInt r). split; [done|]. by apply fresh_id.
  - rewrite cancel_reservation_unfold.
    destruct (loaded reservations_file w) as [rs|] eqn:Hr; simpl; [|untouched].
    destruct (loaded hotels_file w) as [hs|] eqn:Hh; simpl; [|untouched].
    destruct (find_first _ _ rs) as [[x|]|]; simpl; [|untouched..].
    destruct (release_rooms x hs) as [hs'|] eqn:Hrel; simpl; [|untouched].
    destruct (py_remove x rs) as [rs'|] eqn:Hrm; simpl; [|untouched].
    each_collection; apply grow_after_stores; try done; intros E; try discriminate E.
    + rewrite (loaded_Ok_stored _ _ _ Hh).
      destruct (release_rooms_inv _ _ _ Hrel) as [[-> _]|(hid & _ & HF)];
        [apply ids_grow_refl|].
      rewrite (released_ids _ _ _ HF). apply ids_grow_refl.
    + rewrite (loaded_Ok_stored _ _ _ Hr). left.
      apply fmap_sublist. by eapply py_remove_sublist.
  - unfold display_reservations. rewrite load_data_eq. untouched.
Qed.

(** Starting from the empty store, as long as no [modify_*] call names the
    identity key of its collection, every record of every collection carries
    its identity key and no two records of a collection share one: the
    duplicate check of the [create_*] operations is enough to keep ids
    unique. *)
Theorem ids_stay_unique (w : world) :
  reachable_keyed w →
  Forall (λ fk : string * string,
            NoDup (ids fk.2 (stored fk.1 w)) ∧ keyed fk.2 (stored fk.1 w))
         collections.
Proof.
  intros Hw.
  assert (Forall (λ fk : string * string, good_ids (ids fk.2 (stored fk.1 w)))
                 collections) as Hgood.
  { induction Hw as [|w c _ IH Hc].
    - each_collection; (split; [apply NoDup_nil_2|constructor]).
    - pose proof (ids_grow_step c w Hc) as Hstep.
      rewrite Forall_forall in IH, Hstep. apply Forall_forall. intros fk Hin.
      eapply good_ids_grow; [by apply IH|by apply Hstep]. }
  eapply Forall_impl; [exact Hgood|]. intros fk [Hnd Hall]. split; [done|].
  unfold keyed, ids in *. rewrite Forall_forall in Hall. apply Forall_forall.
  intros r Hin. apply Hall, list_elem_of_fmap. eauto.
Qed.

Lemma ids_stay_unique_witness :
  Forall (λ fk : string * string,
            NoDup (ids fk.2 (stored fk.1 booked_store))
            ∧ keyed fk.2 (stored fk.1 booked_store))
         collections.
Proof.
  apply ids_stay_unique. unfold booked_store, customer_store, hotel_store.
  repeat (apply keyed_step; [|reflexivity]). apply keyed_empty.
Defined.

(** ** The room accounting of the data model *)

(** In every state reachable by the restrained calls (hotels created with a
    non-negative [total_rooms], [modify_hotel] kept away from the id and the
    counters, no hotel deleted under a reservation), each hotel's
    [available_rooms] plus the number of reservations naming the hotel equals
    its [total_rooms], hotel ids are unique, and every reservation names a
    hotel that is on file. *)
Theorem rooms_match_reservations (w : world) :
  reachable_restrained w →
  let hs := stored hotels_file w in
  let rs := stored reservations_file w in
  Forall (λ h : record,
            ∃ i t a, h !! "hotel_id" = Some (VInt i)
                     ∧ h !! "total_rooms" = Some (VInt t)
                     ∧ h !! "available_rooms" = Some (VInt a)
                     ∧ a + Z.of_nat (length (filter (has_id "hotel_id" i) rs)) = t) hs
  ∧ NoDup (ids "hotel_id" hs)
  ∧ Forall (λ r : record,
              ∃ i, r !! "hotel_id" = Some (VInt i) ∧ Exists (has_id "hotel_id" i) hs) rs.
Proof.
  intros Hw hs rs. destruct (restrained_consistent w Hw) as [_ (Hh & Hnd & Hr)].
  split; [|by split].
  eapply Forall_impl; [exact Hh|].
  intros h (i & t & a & H1 & H2 & H3 & _ & H5). by exists i, t, a.
Qed.

Lemma rooms_match_reservations_witness :
  NoDup (ids "hotel_id" (stored hotels_file booked_store)).
Proof.
  apply rooms_match_reservations. unfold booked_store, customer_store, hotel_store.
  repeat (apply restrained_step; [|vm_compute; reflexivity]).
  apply restrained_empty.
Defined.
